(** * The power telemetry agent (power-agent/main.go)

    A shallow embedding of the agent's parsers ([parseTemp], [parseVolts],
    [parseClock], [parseThrottleBits]), of one poll cycle ([pollOnce]), of the
    poller loop of [main] and of the lock-protected [cache], followed by the
    properties of the agent's specification that hold of them.

    Go strings are byte strings: [string] of the Standard Library, one [ascii]
    per byte.  A Go [error] is modelled by the text its [Error()] method
    returns, the nil error by [None].  [float64] is the kernel's binary64
    [float]; [uint64] is a [Z] with its range checks written out. *)

From Stdlib Require Import ZArith List String Ascii Bool Lia.
From Stdlib Require Import PrimInt63 Uint63 PrimFloat SpecFloat FloatOps.
Import ListNotations.

#[local] Open Scope string_scope.
#[local] Open Scope Z_scope.
#[local] Infix "+++" := String.append (right associativity, at level 60).

Definition error := string.

(** The functions of Go's runtime library that the agent calls and whose
    result depends on Unicode tables: [strconv.Quote] (the [%q] verb) and
    [strings.TrimSpace].  Nothing below depends on what they compute. *)
Class GoRuntime := {
  Quote : string -> string;
  TrimSpace : string -> string
}.

(** ** Package strings *)

Fixpoint str_take (n : nat) (s : string) : string :=
  match n, s with
  | S k, String c r => String c (str_take k r)
  | _, _ => EmptyString
  end.

Fixpoint str_drop (n : nat) (s : string) : string :=
  match n, s with
  | S k, String _ r => str_drop k r
  | _, _ => s
  end.

(** [len(s) >= len(prefix) && s[:len(prefix)] == prefix] *)
Definition HasPrefix (s prefix : string) : bool :=
  (String.length prefix <=? String.length s)%nat
  && String.eqb (str_take (String.length prefix) s) prefix.

(** [len(s) >= len(suffix) && s[len(s)-len(suffix):] == suffix] *)
Definition HasSuffix (s suffix : string) : bool :=
  (String.length suffix <=? String.length s)%nat
  && String.eqb (str_drop (String.length s - String.length suffix) s) suffix.

Definition TrimPrefix (s prefix : string) : string :=
  if HasPrefix s prefix then str_drop (String.length prefix) s else s.

Definition TrimSuffix (s suffix : string) : string :=
  if HasSuffix s suffix
  then str_take (String.length s - String.length suffix) s
  else s.

(** [strings.Split(s, sep)] for a non-empty [sep]: the pieces of [s] between
    the successive leftmost occurrences of [sep].  [skip] counts the bytes of
    an occurrence of [sep] still to be passed over, [cur] holds the bytes of
    the piece being read.  (With an empty [sep] Go splits after each UTF-8
    sequence; the agent only splits on "=".) *)
Fixpoint split_from (skip : nat) (sep s cur : string) : list string :=
  match s with
  | EmptyString => [cur]
  | String c r =>
      match skip with
      | S k => split_from k sep r cur
      | O =>
          if HasPrefix s sep
          then cur :: split_from (String.length sep - 1) sep r EmptyString
          else split_from O sep r (cur +++ String c EmptyString)
      end
  end.

Definition Split (s sep : string) : list string :=
  split_from O sep s EmptyString.

Fixpoint Join (elems : list string) (sep : string) : string :=
  match elems with
  | [] => EmptyString
  | [e] => e
  | e :: rest => e +++ sep +++ Join rest sep
  end.

(** ** Package strconv: errors and ParseUint *)

Definition ErrSyntax : error := "invalid syntax".
Definition ErrRange : error := "value out of range".

(** The text of a [NumError]: [strconv.] followed by the function name, then
    [: parsing ], the quoted input, [: ] and the text of the cause. *)
Definition NumError `{GoRuntime} (fn num : string) (err : error) : error :=
  "strconv." +++ fn +++ ": parsing " +++ Quote num +++ ": " +++ err.

Definition syntaxError `{GoRuntime} (fn str : string) : error :=
  NumError fn str ErrSyntax.
Definition rangeError `{GoRuntime} (fn str : string) : error :=
  NumError fn str ErrRange.

Definition byte_of (c : ascii) : Z := Z.of_N (N_of_ascii c).

(** [lower(c) = c | ('x' - 'X')] *)
Definition lower (c : ascii) : Z := Z.lor (byte_of c) 32.

Definition in_range (lo x hi : Z) : bool := (lo <=? x) && (x <=? hi).

Definition maxUint64 : Z := 2 ^ 64 - 1.

(** The digit of a byte in [ParseUint]: ['0'..'9'], then letters of either
    case counting from 10; [None] on any other byte. *)
Definition digit_val (c : ascii) : option Z :=
  if in_range 48 (byte_of c) 57 then Some (byte_of c - 48)
  else if in_range 97 (lower c) 122 then Some (lower c - 97 + 10)
  else None.

Inductive uint_scan := ScanOk (n : Z) | ScanSyntax | ScanRange.

(** The loop of [ParseUint(s, base, 64)] for [2 <= base <= 36] (so no
    underscores): [n] is the [uint64] accumulated so far. *)
Fixpoint parse_uint_loop (base : Z) (s : string) (n : Z) : uint_scan :=
  match s with
  | EmptyString => ScanOk n
  | String c r =>
      match digit_val c with
      | None => ScanSyntax
      | Some d =>
          if base <=? d then ScanSyntax
          else if maxUint64 / base + 1 <=? n then ScanRange
          else
            let n := (n * base) mod 2 ^ 64 in
            let n1 := (n + d) mod 2 ^ 64 in
            if (n1 <? n) || (maxUint64 <? n1) then ScanRange
            else parse_uint_loop base r n1
      end
  end.

(** [strconv.ParseUint(s, 16, 64)] *)
Definition ParseUint16 `{GoRuntime} (s : string) : Z * option error :=
  if String.eqb s ""
  then (0, Some (syntaxError "ParseUint" s))
  else
    match parse_uint_loop 16 s 0 with
    | ScanOk n => (n, None)
    | ScanSyntax => (0, Some (syntaxError "ParseUint" s))
    | ScanRange => (maxUint64, Some (rangeError "ParseUint" s))
    end.

(** ** Package strconv: ParseFloat

    [ParseFloat(s, 64)] accepts the special values ([special]) and the
    decimal and hexadecimal floating-point literals read by [readFloat], and
    returns the binary64 number nearest to the literal's value, ties to even.
    Go reaches that number through a 19-digit mantissa and, when that is not
    enough, a decimal of all the digits; the model keeps all the digits in a
    [Z] and rounds once, with the Standard Library's binary64 rounding. *)

(** [commonPrefixLenIgnoreCase(s, prefix)], [prefix] in lower case. *)
Fixpoint commonPrefixLenIgnoreCase (s prefix : string) : nat :=
  match s, prefix with
  | String c r, String p q =>
      let b := if in_range 65 (byte_of c) 90 then byte_of c + 32 else byte_of c in
      if b =? byte_of p then S (commonPrefixLenIgnoreCase r q) else O
  | _, _ => O
  end.

Definition special_inf (neg : bool) (nsign : nat) (s : string)
  : option (float * nat) :=
  let n := commonPrefixLenIgnoreCase s "infinity" in
  let n := if (3 <? n)%nat && (n <? 8)%nat then 3%nat else n in
  if (n =? 3)%nat || (n =? 8)%nat
  then Some (if neg then neg_infinity else infinity, (nsign + n)%nat)
  else None.

(** [special(s)]: the value and the number of bytes read when [s] starts
    with an infinity or a NaN. *)
Definition special (s : string) : option (float * nat) :=
  match s with
  | EmptyString => None
  | String c r =>
      let b := byte_of c in
      if (b =? 43) || (b =? 45) then special_inf (b =? 45) 1 r
      else if (b =? 105) || (b =? 73) then special_inf false 0 s
      else if (b =? 110) || (b =? 78) then
        if (commonPrefixLenIgnoreCase s "nan" =? 3)%nat
        then Some (nan, 3%nat) else None
      else None
  end.

Inductive last_seen := SawStart | SawDigit | SawUnderscore | SawOther.

Fixpoint underscore_loop (hex : bool) (s : string) (saw : last_seen) : bool :=
  match s with
  | EmptyString => match saw with SawUnderscore => false | _ => true end
  | String c r =>
      if in_range 48 (byte_of c) 57 || (hex && in_range 97 (lower c) 102)
      then underscore_loop hex r SawDigit
      else if byte_of c =? 95 then
        match saw with
        | SawDigit => underscore_loop hex r SawUnderscore
        | _ => false
        end
      else
        match saw with
        | SawUnderscore => false
        | _ => underscore_loop hex r SawOther
        end
  end.

(** [underscoreOK(s)]: underscores only between digits, or between a base
    prefix and a digit. *)
Definition underscoreOK (s : string) : bool :=
  let s :=
    match s with
    | String c r => if (byte_of c =? 45) || (byte_of c =? 43) then r else s
    | EmptyString => s
    end in
  match s with
  | String c0 (String c1 r) =>
      if (byte_of c0 =? 48)
         && ((lower c1 =? 98) || (lower c1 =? 111) || (lower c1 =? 120))
      then underscore_loop (lower c1 =? 120) r SawDigit
      else underscore_loop false s SawStart
  | _ => underscore_loop false s SawStart
  end.

Record mant_scan := {
  ms_mant : Z;          (* the digits read, as a number in the base *)
  ms_nd : Z;            (* how many digits, leading zeros apart *)
  ms_dp : Z;            (* position of the point among them *)
  ms_sawdot : bool;
  ms_sawdigits : bool;
  ms_underscores : bool;
  ms_rest : string      (* what follows the mantissa *)
}.

(** The digit loop of [readFloat]. *)
Fixpoint read_mantissa (base : Z) (s : string) (mant nd dp : Z)
    (sawdot sawdigits underscores : bool) : mant_scan :=
  match s with
  | EmptyString =>
      Build_mant_scan mant nd dp sawdot sawdigits underscores s
  | String c r =>
      let b := byte_of c in
      if b =? 95 then read_mantissa base r mant nd dp sawdot sawdigits true
      else if b =? 46 then
        if sawdot
        then Build_mant_scan mant nd dp sawdot sawdigits underscores s
        else read_mantissa base r mant nd nd true sawdigits underscores
      else if in_range 48 b 57 then
        if (b =? 48) && (nd =? 0)
        then read_mantissa base r mant nd (dp - 1) sawdot true underscores
        else read_mantissa base r (mant * base + (b - 48)) (nd + 1) dp
               sawdot true underscores
      else if (base =? 16) && in_range 97 (lower c) 102 then
        read_mantissa base r (mant * 16 + (lower c - 97 + 10)) (nd + 1) dp
          sawdot true underscores
      else Build_mant_scan mant nd dp sawdot sawdigits underscores s
  end.

(** The digits of the exponent; past 10000 further digits are not added. *)
Fixpoint read_exp_digits (s : string) (e : Z) (underscores : bool)
  : Z * bool * string :=
  match s with
  | EmptyString => (e, underscores, s)
  | String c r =>
      let b := byte_of c in
      if b =? 95 then read_exp_digits r e true
      else if in_range 48 b 57
      then read_exp_digits r (if e <? 10000 then e * 10 + (b - 48) else e)
             underscores
      else (e, underscores, s)
  end.

Record float_lit := {
  fl_neg : bool;
  fl_hex : bool;
  fl_mant : Z;        (* value is mant * 10^exp, or mant * 2^exp when hex *)
  fl_exp : Z;
  fl_rest : string    (* the bytes of the input that were not read *)
}.

(** [i+2 < len(s) && s[i] == '0' && lower(s[i+1]) == 'x'] on what follows
    the sign. *)
Definition has_hex_prefix (t : string) : bool :=
  match t with
  | String d0 (String d1 (String _ _)) =>
      (byte_of d0 =? 48) && (lower d1 =? 120)
  | _ => false
  end.

(** The exponent of [readFloat], if there is one: the signed exponent, the
    underscore flag and the bytes left.  [None] where Go gives up: an
    exponent mark without digits, or a hexadecimal mantissa without
    exponent. *)
Definition read_exponent (hex : bool) (s : string) (underscores : bool)
  : option (Z * bool * string) :=
  match s with
  | String e r1 =>
      if lower e =? (if hex then 112 else 101) then
        match r1 with
        | EmptyString => None
        | String sg r2 =>
            let esign := if byte_of sg =? 45 then -1 else 1 in
            let r3 :=
              if (byte_of sg =? 43) || (byte_of sg =? 45) then r2 else r1 in
            match r3 with
            | EmptyString => None
            | String d _ =>
                if negb (in_range 48 (byte_of d) 57) then None
                else
                  let '(e, us, rest) := read_exp_digits r3 0 underscores in
                  Some (e * esign, us, rest)
            end
        end
      else if hex then None
      else Some (0, underscores, s)
  | EmptyString => if hex then None else Some (0, underscores, s)
  end.

(** [readFloat(s)]: [None] where Go returns [ok = false]. *)
Definition readFloat (s : string) : option float_lit :=
  match s with
  | EmptyString => None
  | String c0 r0 =>
      let neg := byte_of c0 =? 45 in
      let t := if (byte_of c0 =? 43) || neg then r0 else s in
      let hex := has_hex_prefix t in
      let base := if hex then 16 else 10 in
      let ms := read_mantissa base (if hex then str_drop 2 t else t)
                  0 0 0 false false false in
      if negb (ms_sawdigits ms) then None
      else
        let dp := if ms_sawdot ms then ms_dp ms else ms_nd ms in
        let dp := if hex then dp * 4 else dp in
        let ndMant := if hex then ms_nd ms * 4 else ms_nd ms in
        match read_exponent hex (ms_rest ms) (ms_underscores ms) with
        | None => None
        | Some (e, underscores, rest) =>
            let dp := dp + e in
            let exp := if ms_mant ms =? 0 then 0 else dp - ndMant in
            let read := str_take (String.length s - String.length rest) s in
            if underscores && negb (underscoreOK read) then None
            else Some (Build_float_lit neg hex (ms_mant ms) exp rest)
        end
  end.

(** The binary64 number nearest to [m * 10^e10] (ties to even), with the
    sign [neg]; an infinity when that is beyond the largest binary64. *)
Definition f64_of_dec (neg : bool) (m e10 : Z) : spec_float :=
  match m with
  | Zpos p =>
      if 0 <=? e10
      then binary_normalize prec emax
             ((if neg then Zneg p else Zpos p) * 10 ^ e10) 0 neg
      else SFdiv prec emax (S754_finite neg p 0)
             (S754_finite false (Z.to_pos (10 ^ (- e10))) 0)
  | _ => S754_zero neg
  end.

(** The same for [m * 2^e2], the value of a hexadecimal literal. *)
Definition f64_of_hex (neg : bool) (m e2 : Z) : spec_float :=
  binary_normalize prec emax (if neg then - m else m) e2 neg.

(** [strconv.ParseFloat(s, 64)] *)
Definition ParseFloat `{GoRuntime} (s : string) : float * option error :=
  match special s with
  | Some (v, n) =>
      if (n =? String.length s)%nat then (v, None)
      else (0%float, Some (syntaxError "ParseFloat" s))
  | None =>
      match readFloat s with
      | None => (0%float, Some (syntaxError "ParseFloat" s))
      | Some l =>
          if negb (String.eqb (fl_rest l) "")
          then (0%float, Some (syntaxError "ParseFloat" s))
          else
            let v :=
              if fl_hex l
              then f64_of_hex (fl_neg l) (fl_mant l) (fl_exp l)
              else f64_of_dec (fl_neg l) (fl_mant l) (fl_exp l) in
            match v with
            | S754_infinity _ =>
                (SF2Prim v, Some (rangeError "ParseFloat" s))
            | _ => (SF2Prim v, None)
            end
      end
  end.

(** ** Package math

    [math.Round(x)]: the nearest integer, halves away from zero; zeros,
    infinities and NaN are returned as they are.  A finite [x] is
    [m * 2^e]; with [e >= 0] it is an integer already, and with [e = - d]
    the nearest integer to [m / 2^d], halves upwards, is [half_away m d]. *)
Definition half_away (m d : Z) : Z := (m + 2 ^ (d - 1)) / 2 ^ d.

Definition Round (x : float) : float :=
  match Prim2SF x with
  | S754_finite s m e =>
      if e <? 0 then
        let q := half_away (Zpos m) (- e) in
        SF2Prim (binary_normalize prec emax (if s then - q else q) 0 s)
      else x
  | _ => x
  end.

(** ** Package time

    A [time.Time] is the zero time or an instant that carries a reading of
    the monotonic clock, in nanoseconds; a [Duration] is an [int64] number of
    nanoseconds. *)
Inductive Time := zeroTime | instant (ns : Z).

Definition Duration := Z.

Definition maxDuration : Duration := 2 ^ 63 - 1.
Definition minDuration : Duration := - 2 ^ 63.

(** [subMono(t, u)]: [t - u], held at the ends of the [int64] range. *)
Definition subMono (t u : Z) : Duration :=
  if maxDuration <? t - u then maxDuration
  else if t - u <? minDuration then minDuration
  else t - u.

(** [t.Sub(u)] on two clock readings (the zero time carries none and is
    never an operand here). *)
Definition Time_Sub (t u : Time) : Duration :=
  match t, u with
  | instant a, instant b => subMono a b
  | _, _ => 0
  end.

Definition digit_char (d : Z) : ascii := ascii_of_N (Z.to_N (48 + d)).

(** [fmtFrac]: the digits of [v mod 10^prec] written in front of [buf],
    trailing zeros and then the point omitted; returns [v / 10^prec] too. *)
Fixpoint fmtFrac (buf : string) (v : Z) (prec : nat) (print : bool)
  : string * Z :=
  match prec with
  | O => (if print then String "." buf else buf, v)
  | S k =>
      let digit := v mod 10 in
      let print := print || negb (digit =? 0) in
      fmtFrac (if print then String (digit_char digit) buf else buf)
        (v / 10) k print
  end.

Fixpoint fmtInt_loop (fuel : nat) (buf : string) (v : Z) : string :=
  match fuel with
  | O => buf
  | S k =>
      if 0 <? v
      then fmtInt_loop k (String (digit_char (v mod 10)) buf) (v / 10)
      else buf
  end.

(** [fmtInt]: [v] in decimal in front of [buf]; a [uint64] has at most 20
    digits. *)
Definition fmtInt (buf : string) (v : Z) : string :=
  if v =? 0 then String "0" buf else fmtInt_loop 20 buf v.

(** The two bytes of the micro sign in UTF-8. *)
Definition micro : string :=
  String (ascii_of_N 194) (String (ascii_of_N 181) EmptyString).

(** [Duration.String]: [72h3m0.5s], [1.5ms], [0s]. *)
Definition Duration_String (d : Duration) : string :=
  let neg := d <? 0 in
  let u := (if neg then - d else d) mod 2 ^ 64 in
  if u =? 0 then "0s"
  else
    let body :=
      if u <? 1000000000 then
        let '(prec, unit) :=
          if u <? 1000 then (0%nat, "ns")
          else if u <? 1000000 then (3%nat, micro +++ "s")
          else (6%nat, "ms") in
        let '(buf, u) := fmtFrac unit u prec false in
        fmtInt buf u
      else
        let '(buf, u) := fmtFrac "s" u 9 false in
        let buf := fmtInt buf (u mod 60) in
        let u := u / 60 in
        if 0 <? u then
          let buf := fmtInt (String "m" buf) (u mod 60) in
          let u := u / 60 in
          if 0 <? u then fmtInt (String "h" buf) u else buf
        else buf in
    if neg then String "-" body else body.

(** ** The world outside the agent

    What the agent reads from outside: the clock and the outcome of each
    call of [run] (the bytes of [CombinedOutput] and its error, which is
    how a command that cannot start, exits with a failure or is killed at
    the deadline of its context shows; a call made when the deadline has
    passed starts no process and has the error of the context as its
    outcome).  [clock k] is the [k]-th reading the agent itself takes of the
    clock, with [time.Now] or [time.Since], and [command k] the outcome of
    the [k]-th call of [run], given the time allowed to the context, the
    program and its arguments; [execs] counts the calls of [run], not the
    processes started. *)
Record Outcome := { output : string; failure : option error }.

Record Env := {
  clock : nat -> Z;
  command : nat -> Duration -> string -> list string -> Outcome
}.

Record World := { reads : nat; execs : nat }.

Definition IO (A : Type) : Type := World -> A * World.

Definition ret {A} (a : A) : IO A := fun w => (a, w).

Definition bind {A B} (m : IO A) (k : A -> IO B) : IO B :=
  fun w => let (a, w') := m w in k a w'.

#[local] Notation "x <- m ;; k" := (bind m (fun x => k))
  (at level 61, m at next level, right associativity).
#[local] Notation "' p <- m ;; k" := (bind m (fun x => let p := x in k))
  (at level 61, p pattern, m at next level, right associativity).

Definition Now (E : Env) : IO Time :=
  fun w => (instant (clock E (reads w)),
            {| reads := S (reads w); execs := execs w |}).

(** [time.Since(start)] is [time.Now().Sub(start)]. *)
Definition Since (E : Env) (start : Time) : IO Duration :=
  t <- Now E ;; ret (Time_Sub t start).

(** ** The agent: data *)

Record State := {
  Timestamp : Time;
  TempC : float;
  VoltV : float;
  ClockArmMHz : float;
  ThrottleHex : string;
  Undervoltage : bool;
  FreqCapped : bool;
  Throttled : bool;
  Source : string;
  LastPollLatency : string;
  (* Debug helpers *)
  RawTemp : string;
  RawVolts : string;
  RawThrottle : string;
  RawClock : string;
  (* Error visibility *)
  LastError : string;
  LastErrorAt : Time
}.

(** The zero value [State{}], from which a composite literal starts. *)
Definition State_zero : State := {|
  Timestamp := zeroTime; TempC := 0; VoltV := 0; ClockArmMHz := 0;
  ThrottleHex := ""; Undervoltage := false; FreqCapped := false;
  Throttled := false; Source := ""; LastPollLatency := "";
  RawTemp := ""; RawVolts := ""; RawThrottle := ""; RawClock := "";
  LastError := ""; LastErrorAt := zeroTime
|}.

(** The cache: the state behind its lock.  Here it is as the poller, its
    only writer, sees it; the lock is in [Module Locked] below. *)
Record cache := { state : State }.

Definition cache_Get (c : cache) : State := state c.
Definition cache_Set (c : cache) (s : State) : cache := {| state := s |}.

(** ** The agent: running a command *)

(** [run(ctx, name, args...)]: the trimmed output of the command, and its
    error wrapped with the command line and the output.  (What [run] and the
    poller write to the log is not modelled.) *)
Definition run `{GoRuntime} (E : Env) (ctx : Duration) (name : string)
    (args : list string) : IO (string * option error) :=
  fun w =>
    let o := command E (execs w) ctx name args in
    let w' := {| reads := reads w; execs := S (execs w) |} in
    let sout := TrimSpace (output o) in
    match failure o with
    | Some err =>
        let wrapped :=
          "exec failed: " +++ name +++ " " +++ Join args " " +++ ": " +++ err
          +++ "; output: " +++ Quote sout in
        ((sout, Some wrapped), w')
    | None => ((sout, None), w')
    end.

(** ** The agent: parsers *)

Definition parseTemp `{GoRuntime} (out : string) : float * option error :=
  let o := out in
  let o := TrimPrefix o "temp=" in
  let o := TrimSuffix o "'C" in
  let '(v, err) := ParseFloat o in
  match err with
  | Some err =>
      (0%float,
       Some ("parseTemp: out=" +++ Quote out +++ " stripped=" +++ Quote o
             +++ ": " +++ err))
  | None => (v, None)
  end.

Definition parseVolts `{GoRuntime} (out : string) : float * option error :=
  let o := out in
  let o := TrimPrefix o "volt=" in
  let o := TrimSuffix o "V" in
  let '(v, err) := ParseFloat o in
  match err with
  | Some err =>
      (0%float,
       Some ("parseVolts: out=" +++ Quote out +++ " stripped=" +++ Quote o
             +++ ": " +++ err))
  | None => (v, None)
  end.

Definition parseClock `{GoRuntime} (out : string) : float * option error :=
  let parts := Split out "=" in
  match parts with
  | [_; rhs] =>
      let '(hz, err) := ParseFloat rhs in
      match err with
      | Some err =>
          (0%float, Some ("parseClock: " +++ Quote rhs +++ ": " +++ err))
      | None =>
          let mhz := (hz / 1000000)%float in
          ((Round (mhz * 10) / 10)%float, None)
      end
  | _ => (0%float, Some ("parseClock: unexpected format " +++ Quote out))
  end.

Definition parseThrottleBits `{GoRuntime} (out : string)
  : string * bool * bool * bool * option error :=
  let hex := out in
  let hex := if HasPrefix out "throttled=" then TrimPrefix out "throttled="
             else hex in
  let '(val, e) := ParseUint16 (TrimPrefix hex "0x") in
  match e with
  | Some e =>
      (hex, false, false, false,
       Some ("parseThrottleBits: " +++ Quote out +++ ": " +++ e))
  | None =>
      let uv := negb (Z.land val (Z.shiftl 1 0) =? 0) in
      let fc := negb (Z.land val (Z.shiftl 1 1) =? 0) in
      let thr := negb (Z.land val (Z.shiftl 1 2) =? 0) in
      (hex, uv, fc, thr, None)
  end.

(** ** The agent: one poll cycle *)

(** [if err != nil && firstErr == nil { firstErr = err }] *)
Definition note_first (err firstErr : option error) : option error :=
  match err, firstErr with
  | Some _, None => err
  | _, _ => firstErr
  end.

Definition pollOnce `{GoRuntime} (E : Env) (timeout : Duration)
  : IO (State * option error) :=
  let ctx := timeout in
  start <- Now E ;;
  '(tOut, tErr) <- run E ctx "vcgencmd" ["measure_temp"] ;;
  '(vOut, vErr) <- run E ctx "vcgencmd" ["measure_volts"] ;;
  '(thOut, thErr) <- run E ctx "vcgencmd" ["get_throttled"] ;;
  '(clkOut, cErr) <- run E ctx "vcgencmd" ["measure_clock"; "arm"] ;;
  let firstErr : option error := None in
  let firstErr := note_first tErr firstErr in
  let firstErr := note_first vErr firstErr in
  let firstErr := note_first thErr firstErr in
  let firstErr := note_first cErr firstErr in
  match firstErr with
  | Some err =>
      ts <- Now E ;;
      latency <- Since E start ;;
      at_ <- Now E ;;
      ret ({| Timestamp := ts; TempC := 0; VoltV := 0; ClockArmMHz := 0;
              ThrottleHex := ""; Undervoltage := false; FreqCapped := false;
              Throttled := false;
              Source := "vcgencmd";
              LastPollLatency := Duration_String latency;
              RawTemp := tOut; RawVolts := vOut; RawThrottle := thOut;
              RawClock := clkOut;
              LastError := err; LastErrorAt := at_ |}, firstErr)
  | None =>
      let '(temp, err) := parseTemp tOut in
      match err with
      | Some e =>
          at_ <- Now E ;;
          ret ({| Timestamp := zeroTime; TempC := 0; VoltV := 0;
                  ClockArmMHz := 0; ThrottleHex := ""; Undervoltage := false;
                  FreqCapped := false; Throttled := false; Source := "";
                  LastPollLatency := "";
                  RawTemp := tOut; RawVolts := ""; RawThrottle := "";
                  RawClock := "";
                  LastError := e; LastErrorAt := at_ |}, err)
      | None =>
      let '(volt, err) := parseVolts vOut in
      match err with
      | Some e =>
          at_ <- Now E ;;
          ret ({| Timestamp := zeroTime; TempC := 0; VoltV := 0;
                  ClockArmMHz := 0; ThrottleHex := ""; Undervoltage := false;
                  FreqCapped := false; Throttled := false; Source := "";
                  LastPollLatency := "";
                  RawTemp := ""; RawVolts := vOut; RawThrottle := "";
                  RawClock := "";
                  LastError := e; LastErrorAt := at_ |}, err)
      | None =>
      let '(clockMHz, err) := parseClock clkOut in
      match err with
      | Some e =>
          at_ <- Now E ;;
          ret ({| Timestamp := zeroTime; TempC := 0; VoltV := 0;
                  ClockArmMHz := 0; ThrottleHex := ""; Undervoltage := false;
                  FreqCapped := false; Throttled := false; Source := "";
                  LastPollLatency := "";
                  RawTemp := ""; RawVolts := ""; RawThrottle := "";
                  RawClock := clkOut;
                  LastError := e; LastErrorAt := at_ |}, err)
      | None =>
      let '(thHex, uv, fc, thr, err) := parseThrottleBits thOut in
      match err with
      | Some e =>
          at_ <- Now E ;;
          ret ({| Timestamp := zeroTime; TempC := 0; VoltV := 0;
                  ClockArmMHz := 0; ThrottleHex := ""; Undervoltage := false;
                  FreqCapped := false; Throttled := false; Source := "";
                  LastPollLatency := "";
                  RawTemp := ""; RawVolts := ""; RawThrottle := thOut;
                  RawClock := "";
                  LastError := e; LastErrorAt := at_ |}, err)
      | None =>
          ts <- Now E ;;
          latency <- Since E start ;;
          ret ({| Timestamp := ts;
                  TempC := temp; VoltV := volt; ClockArmMHz := clockMHz;
                  ThrottleHex := thHex; Undervoltage := uv; FreqCapped := fc;
                  Throttled := thr;
                  Source := "vcgencmd";
                  LastPollLatency := Duration_String latency;
                  RawTemp := tOut; RawVolts := vOut; RawThrottle := thOut;
                  RawClock := clkOut;
                  LastError := ""; LastErrorAt := zeroTime |}, None)
      end end end end
  end.

(** ** The agent: the poller of [main]

    [main] polls once before it serves, then once per tick of its ticker;
    each reading is stored with [c.Set], whether the cycle failed or not. *)
Definition initial_poll `{GoRuntime} (E : Env) (timeout : Duration)
    (c : cache) : IO cache :=
  '(s, err) <- pollOnce E timeout ;;
  match err with
  | Some _ => ret (cache_Set c s)
  | None => ret (cache_Set c s)
  end.

Definition poller_tick `{GoRuntime} (E : Env) (timeout : Duration)
    (c : cache) : IO cache :=
  '(s, err) <- pollOnce E timeout ;;
  ret (cache_Set c s).

(** The cache after [n] ticks of the ticker. *)
Fixpoint poller `{GoRuntime} (E : Env) (timeout : Duration) (n : nat)
    (c : cache) : IO cache :=
  match n with
  | O => ret c
  | S k => c' <- poller_tick E timeout c ;; poller E timeout k c'
  end.

Definition main_poller `{GoRuntime} (E : Env) (timeout : Duration) (n : nat)
  : IO cache :=
  c <- initial_poll E timeout {| state := State_zero |} ;;
  poller E timeout n c.

(** ** The cache under its lock

    [cache.Set] takes the write lock of [mu], stores [s] in [c.state] and
    releases the lock; [cache.Get] takes the read lock, loads [c.state] and
    releases it.  Go does not promise that the copy of a struct is one step:
    here a copy is one step per field, and the poller and any number of
    request handlers take their steps in any order a schedule gives.  The
    lock is Go's [sync.RWMutex]: [Lock] waits until no reader and no writer
    holds it, [RLock] waits while a writer holds it.  The lock of the library
    also keeps [RLock] waiting while a writer waits in [Lock]; that
    preference is left out, so the schedules here are those of the library's
    lock and some more, and what holds after every schedule here holds after
    every run of the program.  Nothing is said here of which thread gets the
    lock next. *)
Module Locked.

Inductive field :=
| FTimestamp | FTempC | FVoltV | FClockArmMHz | FThrottleHex
| FUndervoltage | FFreqCapped | FThrottled | FSource | FLastPollLatency
| FRawTemp | FRawVolts | FRawThrottle | FRawClock | FLastError
| FLastErrorAt.

Definition fields : list field :=
  [FTimestamp; FTempC; FVoltV; FClockArmMHz; FThrottleHex; FUndervoltage;
   FFreqCapped; FThrottled; FSource; FLastPollLatency; FRawTemp; FRawVolts;
   FRawThrottle; FRawClock; FLastError; FLastErrorAt].

Definition field_index (f : field) : nat :=
  match f with
  | FTimestamp => 0 | FTempC => 1 | FVoltV => 2 | FClockArmMHz => 3
  | FThrottleHex => 4 | FUndervoltage => 5 | FFreqCapped => 6
  | FThrottled => 7 | FSource => 8 | FLastPollLatency => 9
  | FRawTemp => 10 | FRawVolts => 11 | FRawThrottle => 12
  | FRawClock => 13 | FLastError => 14 | FLastErrorAt => 15
  end.

(** [dst] with its field [f] overwritten by that of [src]. *)
Definition copy_field (f : field) (src dst : State) : State :=
  let pick (A : Type) (g : field) (get : State -> A) : A :=
    if Nat.eqb (field_index g) (field_index f) then get src else get dst in
  {| Timestamp := pick _ FTimestamp Timestamp;
     TempC := pick _ FTempC TempC;
     VoltV := pick _ FVoltV VoltV;
     ClockArmMHz := pick _ FClockArmMHz ClockArmMHz;
     ThrottleHex := pick _ FThrottleHex ThrottleHex;
     Undervoltage := pick _ FUndervoltage Undervoltage;
     FreqCapped := pick _ FFreqCapped FreqCapped;
     Throttled := pick _ FThrottled Throttled;
     Source := pick _ FSource Source;
     LastPollLatency := pick _ FLastPollLatency LastPollLatency;
     RawTemp := pick _ FRawTemp RawTemp;
     RawVolts := pick _ FRawVolts RawVolts;
     RawThrottle := pick _ FRawThrottle RawThrottle;
     RawClock := pick _ FRawClock RawClock;
     LastError := pick _ FLastError LastError;
     LastErrorAt := pick _ FLastErrorAt LastErrorAt |}.

(** What a copy that still has the fields [todo] to go will have made of
    [dst] when it is done, if [src] does not change meanwhile. *)
Definition finish_copy (src : State) (todo : list field) (dst : State)
  : State :=
  fold_left (fun d f => copy_field f src d) todo dst.

Record RWMutex := { writer : bool; readers : nat }.

(** The poller inside [c.Set(s)]. *)
Inductive setter :=
| SetIdle
| SetStoring (s : State) (todo : list field).

(** A request handler inside [c.Get()]: [buf] is the result being
    filled. *)
Inductive getter :=
| GetIdle
| GetLoading (buf : State) (todo : list field)
| GetReturned (v : State).

Record system := {
  mu : RWMutex;
  slot : State;                (* c.state *)
  poller_at : setter;
  pending : list State;        (* the readings of the cycles to come *)
  handlers : list getter;
  published : list State       (* the arguments of the calls of Set that
                                  have returned, the last one first *)
}.

Inductive action :=
| SetLock | SetStore | SetUnlock
| GetRLock (i : nat) | GetLoad (i : nat) | GetRUnlock (i : nat).

Fixpoint set_nth {A} (i : nat) (x : A) (l : list A) : list A :=
  match l, i with
  | [], _ => []
  | _ :: r, O => x :: r
  | y :: r, S k => y :: set_nth k x r
  end.

(** One step of one thread; [None] when the thread is not at that step or
    has to wait for the lock. *)
Definition step (a : action) (c : system) : option system :=
  match a with
  | SetLock =>
      match poller_at c, pending c with
      | SetIdle, s :: rest =>
          if negb (writer (mu c)) && Nat.eqb (readers (mu c)) 0
          then Some {| mu := {| writer := true; readers := 0 |};
                       slot := slot c;
                       poller_at := SetStoring s fields;
                       pending := rest;
                       handlers := handlers c;
                       published := published c |}
          else None
      | _, _ => None
      end
  | SetStore =>
      match poller_at c with
      | SetStoring s (f :: todo) =>
          Some {| mu := mu c;
                  slot := copy_field f s (slot c);
                  poller_at := SetStoring s todo;
                  pending := pending c;
                  handlers := handlers c;
                  published := published c |}
      | _ => None
      end
  | SetUnlock =>
      match poller_at c with
      | SetStoring s [] =>
          Some {| mu := {| writer := false; readers := readers (mu c) |};
                  slot := slot c;
                  poller_at := SetIdle;
                  pending := pending c;
                  handlers := handlers c;
                  published := s :: published c |}
      | _ => None
      end
  | GetRLock i =>
      match nth_error (handlers c) i with
      | Some GetIdle | Some (GetReturned _) =>
          if negb (writer (mu c))
          then Some {| mu := {| writer := false;
                                readers := S (readers (mu c)) |};
                       slot := slot c;
                       poller_at := poller_at c;
                       pending := pending c;
                       handlers :=
                         set_nth i (GetLoading State_zero fields)
                           (handlers c);
                       published := published c |}
          else None
      | _ => None
      end
  | GetLoad i =>
      match nth_error (handlers c) i with
      | Some (GetLoading buf (f :: todo)) =>
          Some {| mu := mu c;
                  slot := slot c;
                  poller_at := poller_at c;
                  pending := pending c;
                  handlers :=
                    set_nth i (GetLoading (copy_field f (slot c) buf) todo)
                      (handlers c);
                  published := published c |}
      | _ => None
      end
  | GetRUnlock i =>
      match nth_error (handlers c) i with
      | Some (GetLoading buf []) =>
          Some {| mu := {| writer := writer (mu c);
                           readers := Nat.pred (readers (mu c)) |};
                  slot := slot c;
                  poller_at := poller_at c;
                  pending := pending c;
                  handlers := set_nth i (GetReturned buf) (handlers c);
                  published := published c |}
      | _ => None
      end
  end.

Fixpoint run_schedule (sched : list action) (c : system) : option system :=
  match sched with
  | [] => Some c
  | a :: rest =>
      match step a c with
      | Some c' => run_schedule rest c'
      | None => None
      end
  end.

(** The system when [main] starts the poller and the server: the cache
    holds the reading [s0] of the initial poll, the lock is free, the
    poller has the readings [todo] of its cycles to store, and [n]
    handlers have not asked yet. *)
Definition start (s0 : State) (todo : list State) (n : nat) : system := {|
  mu := {| writer := false; readers := 0 |};
  slot := s0;
  poller_at := SetIdle;
  pending := todo;
  handlers := repeat GetIdle n;
  published := [s0]
|}.

(** What holds of every system the schedules reach: the published
    readings, the one being stored and the pending ones are those the
    poller was given, in order; while the poller is outside [Set] the slot
    is the last published reading; while it stores no handler holds the
    lock; and a handler that loads is filling its result from a slot that
    does not change. *)
Definition loading (g : getter) : bool :=
  match g with
  | GetLoading _ _ => true
  | _ => false
  end.

Definition count_loading (l : list getter) : nat :=
  List.length (filter loading l).

Definition getter_ok (m : State) (pub : list State) (g : getter) : Prop :=
  match g with
  | GetIdle => True
  | GetLoading buf todo => finish_copy m todo buf = m
  | GetReturned v => In v pub
  end.

Definition in_flight (p : setter) : list State :=
  match p with
  | SetStoring s _ => [s]
  | SetIdle => []
  end.

Record invariant (s0 : State) (todo : list State) (c : system) : Prop := {
  inv_history :
    (rev (published c) ++ in_flight (poller_at c) ++ pending c)%list
    = s0 :: todo;
  inv_published : published c <> [];
  inv_poller :
    match poller_at c with
    | SetIdle =>
        writer (mu c) = false /\ slot c = hd s0 (published c)
    | SetStoring s fs =>
        writer (mu c) = true /\ readers (mu c) = 0%nat
        /\ finish_copy s fs (slot c) = s
    end;
  inv_readers : readers (mu c) = count_loading (handlers c);
  inv_handlers : Forall (getter_ok (slot c) (published c)) (handlers c)
}.

(** Two readings that differ in every field a reader could mix up, and a
    schedule in which a handler loads while the poller waits, and another
    after the poller has stored. *)
Definition reading (n : Z) (raw : string) : State := {|
  Timestamp := instant n; TempC := 0; VoltV := 0; ClockArmMHz := 0;
  ThrottleHex := raw; Undervoltage := false; FreqCapped := false;
  Throttled := false; Source := "vcgencmd"; LastPollLatency := "1ms";
  RawTemp := raw; RawVolts := raw; RawThrottle := raw; RawClock := raw;
  LastError := ""; LastErrorAt := zeroTime
|}.

Definition example_schedule : list action :=
  [GetRLock 0] ++ repeat (GetLoad 0) 16 ++ [GetRUnlock 0; SetLock]
  ++ repeat SetStore 16 ++ [SetUnlock; GetRLock 1]
  ++ repeat (GetLoad 1) 16 ++ [GetRUnlock 1].

End Locked.

(** ** A runtime for closed examples

    On printable ASCII without quotes or backslashes [strconv.Quote] puts the
    string between double quotes, and on ASCII [strings.TrimSpace] removes
    the leading and trailing blanks, tabs, line feeds, vertical tabs, form
    feeds and carriage returns. *)
Definition is_space (c : ascii) : bool :=
  in_range 9 (byte_of c) 13 || (byte_of c =? 32).

Fixpoint trim_left (s : string) : string :=
  match s with
  | String c r => if is_space c then trim_left r else s
  | EmptyString => s
  end.

Fixpoint trim_right (s : string) : string :=
  match s with
  | EmptyString => EmptyString
  | String c r =>
      let r' := trim_right r in
      if is_space c && String.eqb r' "" then EmptyString else String c r'
  end.

Definition double_quote : string := String (ascii_of_N 34) EmptyString.

Definition plain_runtime : GoRuntime := {|
  Quote := fun s => double_quote +++ s +++ double_quote;
  TrimSpace := fun s => trim_right (trim_left s)
|}.

(** ** Decimal numbers, as the specification writes them

    The specification's [<d>] in [temp=<d>'C]: an optional sign, then
    digits with at most one point among them, one digit at least.
    [decimal_number] reads such a string as [(neg, n, k)], the number
    [n / 10^k] with the sign [neg], and is [None] on any other string. *)
Definition is_digit (c : ascii) : bool := in_range 48 (byte_of c) 57.

Fixpoint dec_scan (s : string) (n : Z) (k : option Z) (digits : bool)
  : option (Z * Z) :=
  match s with
  | EmptyString =>
      if digits
      then Some (n, match k with Some k => k | None => 0 end)
      else None
  | String c r =>
      if is_digit c
      then dec_scan r (10 * n + (byte_of c - 48)) (option_map Z.succ k) true
      else if byte_of c =? 46 then
        match k with
        | None => dec_scan r n (Some 0) digits
        | Some _ => None
        end
      else None
  end.

Definition decimal_number (s : string) : option (bool * Z * Z) :=
  match s with
  | EmptyString => None
  | String c r =>
      let body sign t :=
        match dec_scan t 0 None false with
        | Some (n, k) => Some (sign, n, k)
        | None => None
        end in
      if byte_of c =? 45 then body true r
      else if byte_of c =? 43 then body false r
      else body false s
  end.

(** ** Hexadecimal and integer numbers, as the specification writes them

    A 64-bit unsigned hexadecimal integer: one hexadecimal digit at least,
    of either case, and a value below [2^64]. *)
Definition hex_digit (c : ascii) : option Z :=
  let b := byte_of c in
  if in_range 48 b 57 then Some (b - 48)
  else if in_range 97 b 102 then Some (b - 87)
  else if in_range 65 b 70 then Some (b - 55)
  else None.

Fixpoint hex_value (s : string) (acc : Z) : option Z :=
  match s with
  | EmptyString => Some acc
  | String c r =>
      match hex_digit c with
      | Some d => hex_value r (16 * acc + d)
      | None => None
      end
  end.

Definition hex_uint64 (s : string) : option Z :=
  match s with
  | EmptyString => None
  | _ =>
      match hex_value s 0 with
      | Some v => if v <? 2 ^ 64 then Some v else None
      | None => None
      end
  end.

(** A valid integer: an optional sign and then digits only, one at least. *)
Fixpoint all_digits (s : string) : bool :=
  match s with
  | EmptyString => true
  | String c r => is_digit c && all_digits r
  end.

Definition integer_number (s : string) : bool :=
  let body t := negb (String.eqb t "") && all_digits t in
  match s with
  | String c r =>
      if (byte_of c =? 45) || (byte_of c =? 43) then body r else body s
  | EmptyString => false
  end.

(** Whether the byte [=] occurs in a string. *)
Fixpoint has_eq (s : string) : bool :=
  match s with
  | EmptyString => false
  | String c r => (byte_of c =? 61) || has_eq r
  end.

(** ** A poll cycle, seen from outside

    The four commands of the cycle that starts in the world [w], in the
    order [pollOnce] runs them, and what [run] returns for each. *)
Record Queries := {
  q_temp : Outcome;
  q_volts : Outcome;
  q_throttle : Outcome;
  q_clock : Outcome
}.

Definition queries (E : Env) (timeout : Duration) (w : World) : Queries := {|
  q_temp := command E (execs w) timeout "vcgencmd" ["measure_temp"];
  q_volts := command E (S (execs w)) timeout "vcgencmd" ["measure_volts"];
  q_throttle :=
    command E (S (S (execs w))) timeout "vcgencmd" ["get_throttled"];
  q_clock :=
    command E (S (S (S (execs w)))) timeout "vcgencmd" ["measure_clock"; "arm"]
|}.

Definition raw_of `{GoRuntime} (o : Outcome) : string := TrimSpace (output o).

Definition exec_error `{GoRuntime} (args : list string) (o : Outcome)
  : option error :=
  match failure o with
  | Some err =>
      Some ("exec failed: vcgencmd " +++ Join args " " +++ ": " +++ err
            +++ "; output: " +++ Quote (raw_of o))
  | None => None
  end.

(** The first error of a list of results, in the order of the list. *)
Fixpoint first_error (l : list (option error)) : option error :=
  match l with
  | [] => None
  | Some e :: _ => Some e
  | None :: r => first_error r
  end.

(** The errors of the four commands in the order the specification checks
    them: temperature, voltage, throttle, clock. *)
Definition query_errors `{GoRuntime} (q : Queries) : list (option error) :=
  [exec_error ["measure_temp"] (q_temp q);
   exec_error ["measure_volts"] (q_volts q);
   exec_error ["get_throttled"] (q_throttle q);
   exec_error ["measure_clock"; "arm"] (q_clock q)].

Inductive measurement := Temperature | Voltage | Clock | Throttle.

(** The first measurement whose parser fails, in the order temperature,
    voltage, clock, throttle, with its raw output and the error. *)
Definition first_parse_failure `{GoRuntime} (q : Queries)
  : option (measurement * string * error) :=
  match snd (parseTemp (raw_of (q_temp q))) with
  | Some e => Some (Temperature, raw_of (q_temp q), e)
  | None =>
  match snd (parseVolts (raw_of (q_volts q))) with
  | Some e => Some (Voltage, raw_of (q_volts q), e)
  | None =>
  match snd (parseClock (raw_of (q_clock q))) with
  | Some e => Some (Clock, raw_of (q_clock q), e)
  | None =>
  match snd (parseThrottleBits (raw_of (q_throttle q))) with
  | Some e => Some (Throttle, raw_of (q_throttle q), e)
  | None => None
  end end end end.

(** A reading that carries an error, its time, and the raw output of one
    measurement only. *)
Definition parse_failure_reading (m : measurement) (raw : string) (e : error)
    (at_ : Time) : State := {|
  Timestamp := zeroTime; TempC := 0; VoltV := 0; ClockArmMHz := 0;
  ThrottleHex := ""; Undervoltage := false; FreqCapped := false;
  Throttled := false; Source := ""; LastPollLatency := "";
  RawTemp := match m with Temperature => raw | _ => "" end;
  RawVolts := match m with Voltage => raw | _ => "" end;
  RawThrottle := match m with Throttle => raw | _ => "" end;
  RawClock := match m with Clock => raw | _ => "" end;
  LastError := e; LastErrorAt := at_
|}.

(** What the specification says of a cycle: its four commands succeeded,
    the four parsers accepted their outputs, and a reading holds the four
    parsed measurements. *)
Definition queries_ok (q : Queries) : Prop :=
  failure (q_temp q) = None /\ failure (q_volts q) = None
  /\ failure (q_throttle q) = None /\ failure (q_clock q) = None.

Definition parses_ok `{GoRuntime} (q : Queries) : Prop :=
  snd (parseTemp (raw_of (q_temp q))) = None
  /\ snd (parseVolts (raw_of (q_volts q))) = None
  /\ snd (parseClock (raw_of (q_clock q))) = None
  /\ snd (parseThrottleBits (raw_of (q_throttle q))) = None.

Definition populated `{GoRuntime} (q : Queries) (s : State) : Prop :=
  TempC s = fst (parseTemp (raw_of (q_temp q)))
  /\ VoltV s = fst (parseVolts (raw_of (q_volts q)))
  /\ ClockArmMHz s = fst (parseClock (raw_of (q_clock q)))
  /\ (ThrottleHex s, Undervoltage s, FreqCapped s, Throttled s)
     = fst (parseThrottleBits (raw_of (q_throttle q))).

(** ** Three worlds for closed examples

    A clock that advances by 250 microseconds between two readings, and a
    [vcgencmd] that answers as on a Raspberry Pi 4.  In the second world
    [get_throttled] is killed before it prints; in the third
    [measure_temp] exits normally and prints something that is no
    temperature. *)
Definition line (s : string) : string := s +++ String (ascii_of_N 10) "".

Definition healthy_command (args : list string) : Outcome :=
  match args with
  | ["measure_temp"] => {| output := line "temp=53.2'C"; failure := None |}
  | ["measure_volts"] => {| output := line "volt=0.8625V"; failure := None |}
  | ["get_throttled"] =>
      {| output := line "throttled=0x50005"; failure := None |}
  | _ => {| output := line "frequency(48)=1500398464"; failure := None |}
  end.

Definition example_clock (k : nat) : Z := 1000 + 250000 * Z.of_nat k.

Definition healthy_env : Env := {|
  clock := example_clock;
  command := fun _ _ _ args => healthy_command args
|}.

(** The healthy world on a clock that does not advance between two
    readings: the monotonic clock promises only not to go backwards. *)
Definition frozen_env : Env := {|
  clock := fun _ => 1000;
  command := fun _ _ _ args => healthy_command args
|}.

Definition throttle_killed_env : Env := {|
  clock := example_clock;
  command := fun _ _ _ args =>
    match args with
    | ["get_throttled"] => {| output := ""; failure := Some "signal: killed" |}
    | _ => healthy_command args
    end
|}.

Definition garbled_temp_env : Env := {|
  clock := example_clock;
  command := fun _ _ _ args =>
    match args with
    | ["measure_temp"] =>
        {| output := line "VCHI initialization failed"; failure := None |}
    | _ => healthy_command args
    end
|}.

(** A world where no command ever succeeds: [vcgencmd] exits with status 1
    in the first two cycles (the calls 0 to 7 of [run]) and is killed from
    the third cycle on. *)
Definition degrading_env : Env := {|
  clock := example_clock;
  command := fun k _ _ _ =>
    {| output := "";
       failure := Some (if (k <? 8)%nat then "exit status 1"
                        else "signal: killed") |}
|}.

Definition world0 : World := {| reads := 0; execs := 0 |}.

Definition default_timeout : Duration := 800000000.

(** ** Whole calls of Set and Get

    The steps of one call of [c.Set] by the poller, and of one call of
    [c.Get] by the handler [i], when nothing else runs in between. *)
Definition Set_steps : list Locked.action :=
  Locked.SetLock
  :: repeat Locked.SetStore (List.length Locked.fields)
  ++ [Locked.SetUnlock].

Definition Get_steps (i : nat) : list Locked.action :=
  Locked.GetRLock i
  :: repeat (Locked.GetLoad i) (List.length Locked.fields)
  ++ [Locked.GetRUnlock i].

(** * The consumers of the agent

    The functions that fetch the agent's JSON over HTTP and cache it.  What
    they read from outside is the clock, here with its wall time (for the
    times that come out of JSON, which carry no monotonic reading), and the
    outcome of each GET: [http.Client.Do] failed, the body was not the JSON
    of the struct, or it was. *)
Module Net.

(** A [time.Time]: nanoseconds since 1 January 1970 UTC, and the reading of
    the monotonic clock when [time.Now] made it. *)
Record WTime := { wall : Z; mono : option Z }.

(** The zero [time.Time] is 1 January of the year 1, 00:00:00 UTC. *)
Definition zero_wall : Z := -62135596800 * 1000000000.

Definition WTime_zero : WTime := {| wall := zero_wall; mono := None |}.

Definition IsZero (t : WTime) : bool := wall t =? zero_wall.

(** [t.Unix()]: whole seconds since 1 January 1970 UTC. *)
Definition Unix (t : WTime) : Z := wall t / 1000000000.

(** [t.Sub(u)]: the difference of the monotonic readings when both have
    one, of the wall times otherwise, held at the ends of [Duration]. *)
Definition Sub (t u : WTime) : Duration :=
  match mono t, mono u with
  | Some a, Some b => subMono a b
  | _, _ => subMono (wall t) (wall u)
  end.

Inductive Fetched (A : Type) :=
| DoFailed (err : error)
| DecodeFailed (err : error)
| Decoded (a : A).
Arguments DoFailed {A} err.
Arguments DecodeFailed {A} err.
Arguments Decoded {A} a.

(** [wall_at k] and [mono_at k] are the [k]-th reading of the clock,
    [get k url] the outcome of the [k]-th GET, of [url]. *)
Record Env (A : Type) := {
  wall_at : nat -> Z;
  mono_at : nat -> Z;
  get : nat -> string -> Fetched A
}.
Arguments wall_at {A} e k.
Arguments mono_at {A} e k.
Arguments get {A} e k url.

Definition now_at {A} (E : Env A) (k : nat) : WTime :=
  {| wall := wall_at E k; mono := Some (mono_at E k) |}.

End Net.

(** ** Package function (its [getPower] tests [Timestamp.Unix() != 0]) *)
Module FuncPower.
Import Net.

Record Power := {
  Timestamp : WTime;
  TempC : float;
  VoltV : float;
  ClockArmMHz : float;
  Undervoltage : bool;
  FreqCapped : bool;
  Throttled : bool;
  LastError : string
}.

(** [Power{LastError: e}] *)
Definition Power_error (e : string) : Power := {|
  Timestamp := WTime_zero; TempC := 0; VoltV := 0; ClockArmMHz := 0;
  Undervoltage := false; FreqCapped := false; Throttled := false;
  LastError := e
|}.

Definition ttl : Duration := 5 * 1000000000.

(** The package variables [cache] and [cacheAt], with how many times the
    clock was read and how many GETs were made. *)
Record Vars := {
  cache : Power;
  cacheAt : WTime;
  clock_reads : nat;
  gets : nat
}.

(** The variables when the program starts. *)
Definition Vars_zero : Vars := {|
  cache := Power_error ""; cacheAt := WTime_zero; clock_reads := 0; gets := 0
|}.

(** [init]: the explicit URL, else one built from [HOST_IP], else none. *)
Definition init (getenv : string -> string) : string :=
  let powerURL := getenv "POWER_API_URL" in
  if String.eqb powerURL "" then
    let host := getenv "HOST_IP" in
    if negb (String.eqb host "")
    then "http://" +++ host +++ ":8085/power"
    else powerURL
  else powerURL.

(** [getPower], the whole of it under [mu]: one call is one step. *)
Definition getPower (E : Env Power) (powerURL : string) (v : Vars)
  : Power * option error * Vars :=
  let since := Sub (now_at E (clock_reads v)) (cacheAt v) in
  let v := {| cache := cache v; cacheAt := cacheAt v;
              clock_reads := S (clock_reads v); gets := gets v |} in
  if (since <? ttl) && negb (Unix (Timestamp (cache v)) =? 0)
  then (cache v, None, v)
  else if String.eqb powerURL ""
  then (Power_error "POWER_API_URL/HOST_IP not set", None, v)
  else
    let stored (p : Power) : Power * option error * Vars :=
      (p, None,
       {| cache := p; cacheAt := now_at E (clock_reads v);
          clock_reads := S (clock_reads v); gets := S (gets v) |}) in
    match get E (gets v) powerURL with
    | DoFailed err => stored (Power_error err)
    | DecodeFailed err => stored (Power_error err)
    | Decoded p => stored p
    end.

Inductive Response :=
| InternalServerError (msg : string)
| Json (degraded : bool) (power : Power) (request : string).

(** [Handle]: [dump] is what [httputil.DumpRequest] returns for the
    request; [Json] is the document the handler encodes (after it the
    handler also writes the quoted dump to the response and to the log). *)
Definition Handle (E : Env Power) (powerURL : string)
    (dump : string * option error) (v : Vars) : Response * Vars :=
  let '(p, _, v) := getPower E powerURL v in
  let degraded :=
    Undervoltage p || FreqCapped p || Throttled p
    || PrimFloat.ltb 70 (TempC p) in
  match snd dump with
  | Some err => (InternalServerError err, v)
  | None => (Json degraded p (fst dump), v)
  end.

End FuncPower.

(** ** ko-function (its [getPower] tests [!Timestamp.IsZero()]) *)
Module KoPower.
Import Net.

(** The struct [Power] and the package variables are those of package
    function. *)
Abbreviation Power := FuncPower.Power.
Abbreviation Vars := FuncPower.Vars.

Definition getPower (E : Env Power) (powerURL : string) (v : Vars)
  : Power * option error * Vars :=
  let since := Sub (now_at E (FuncPower.clock_reads v)) (FuncPower.cacheAt v) in
  let v := {| FuncPower.cache := FuncPower.cache v;
              FuncPower.cacheAt := FuncPower.cacheAt v;
              FuncPower.clock_reads := S (FuncPower.clock_reads v);
              FuncPower.gets := FuncPower.gets v |} in
  if (since <? FuncPower.ttl)
     && negb (IsZero (FuncPower.Timestamp (FuncPower.cache v)))
  then (FuncPower.cache v, None, v)
  else if String.eqb powerURL ""
  then (FuncPower.Power_error "POWER_API_URL/HOST_IP not set", None, v)
  else
    let stored (p : Power) : Power * option error * Vars :=
      (p, None,
       {| FuncPower.cache := p;
          FuncPower.cacheAt := now_at E (FuncPower.clock_reads v);
          FuncPower.clock_reads := S (FuncPower.clock_reads v);
          FuncPower.gets := S (FuncPower.gets v) |}) in
    match get E (FuncPower.gets v) powerURL with
    | DoFailed err => stored (FuncPower.Power_error err)
    | DecodeFailed err => stored (FuncPower.Power_error err)
    | Decoded p => stored p
    end.

(** [Handle]: the degraded flag and the reading it encodes. *)
Definition Handle (E : Env Power) (powerURL : string) (v : Vars)
  : bool * Power * Vars :=
  let '(p, _, v) := getPower E powerURL v in
  let degraded :=
    FuncPower.Undervoltage p || FuncPower.FreqCapped p
    || FuncPower.Throttled p || PrimFloat.ltb 70 (FuncPower.TempC p) in
  (degraded, p, v).

End KoPower.

(** ** The status function (its [getStatus] tests [LastUpdated != ""]) *)
Module StatusProxy.
Import Net.

Record PowerStatus := {
  NodeName : string;
  BatteryPercent : Z;
  IsCharging : bool;
  TimeOfDay : string;
  SolarAvailable : bool;
  LastUpdated : string;
  LastError : string
}.

(** [PowerStatus{LastError: e}] *)
Definition PowerStatus_error (e : string) : PowerStatus := {|
  NodeName := ""; BatteryPercent := 0; IsCharging := false; TimeOfDay := "";
  SolarAvailable := false; LastUpdated := ""; LastError := e
|}.

Definition ttl : Duration := 2 * 1000000000.

Record Vars := {
  cache : PowerStatus;
  cacheAt : WTime;
  clock_reads : nat;
  gets : nat
}.

Definition Vars_zero : Vars := {|
  cache := PowerStatus_error ""; cacheAt := WTime_zero;
  clock_reads := 0; gets := 0
|}.

(** [init]: the explicit URL, else the simulator on [HOST_IP], else the
    simulator on localhost. *)
Definition init (getenv : string -> string) : string :=
  let powerURL := getenv "POWER_STATUS_URL" in
  let powerURL :=
    if String.eqb powerURL "" then
      let host := getenv "HOST_IP" in
      if negb (String.eqb host "")
      then "http://" +++ host +++ ":8080/status"
      else powerURL
    else powerURL in
  if String.eqb powerURL "" then "http://localhost:8080/status" else powerURL.

Definition getStatus (E : Env PowerStatus) (powerURL : string) (v : Vars)
  : PowerStatus * option error * Vars :=
  let since := Sub (now_at E (clock_reads v)) (cacheAt v) in
  let v := {| cache := cache v; cacheAt := cacheAt v;
              clock_reads := S (clock_reads v); gets := gets v |} in
  if (since <? ttl) && negb (String.eqb (LastUpdated (cache v)) "")
  then (cache v, None, v)
  else
    let stored (p : PowerStatus) : PowerStatus * option error * Vars :=
      (p, None,
       {| cache := p; cacheAt := now_at E (clock_reads v);
          clock_reads := S (clock_reads v); gets := S (gets v) |}) in
    match get E (gets v) powerURL with
    | DoFailed err => stored (PowerStatus_error err)
    | DecodeFailed err => stored (PowerStatus_error err)
    | Decoded ps => stored ps
    end.

(** The document [handle] encodes, the server time apart. *)
Record Output := {
  source_url : string;
  power : PowerStatus;
  power_state : string;
  should_run : bool;
  cached_at : WTime;
  cache_ttl_s : Z
}.

Definition handle (E : Env PowerStatus) (powerURL : string) (v : Vars)
  : Output * Vars :=
  let '(ps, _, v) := getStatus E powerURL v in
  let powerState := "low" in
  let powerState :=
    if (30 <=? BatteryPercent ps) || IsCharging ps || SolarAvailable ps
    then "ok" else powerState in
  let shouldRun := String.eqb powerState "ok" in
  ({| source_url := powerURL;
      power := ps;
      power_state := powerState;
      should_run := shouldRun;
      cached_at := cacheAt v;
      cache_ttl_s := ttl / 1000000000 |}, v).

End StatusProxy.

(** ** The simulator of power data

    [rand.Intn], the hour of [time.Now()], the time in RFC 3339 and the
    environment are read from outside: [intn k n] is the [k]-th draw of
    [rand.Intn(n)]. *)
Module Simulator.

Record PowerStatus := {
  NodeName : string;
  BatteryPercent : Z;
  IsCharging : bool;
  TimeOfDay : string;
  SolarAvailable : bool;
  LastUpdated : string
}.

Record Env := {
  intn : nat -> Z -> Z;
  hour : Z;
  rfc3339_now : string;
  getenv : string -> string
}.

Definition getNodeName (E : Env) : string :=
  let node := getenv E "NODE_NAME" in
  if negb (String.eqb node "") then node else "unknown-node".

(** [draws] counts the calls of [rand.Intn] made before. *)
Definition generatePowerStatus (E : Env) (draws : nat) : PowerStatus * nat :=
  let battery := intn E draws 60 + 40 in
  let isCharging := intn E (S draws) 2 =? 0 in
  let hour := hour E in
  let timeOfDay := "day" in
  let timeOfDay :=
    if (18 <=? hour) || (hour <? 6) then "night" else timeOfDay in
  let solar := String.eqb timeOfDay "day" && negb isCharging in
  ({| NodeName := getNodeName E;
      BatteryPercent := battery;
      IsCharging := isCharging;
      TimeOfDay := timeOfDay;
      SolarAvailable := solar;
      LastUpdated := rfc3339_now E |}, S (S draws)).

(** A simulator for closed examples: the draws 37 and 1, at 21 hours. *)
Definition example_env : Env := {|
  intn := fun k n => (37 + 24 * Z.of_nat k) mod n;
  hour := 21;
  rfc3339_now := "2025-10-04T21:00:00Z";
  getenv := fun _ => ""
|}.

End Simulator.

(** ** The poller that turns the status into events *)
Module Poller.

(** The poller decodes the JSON the simulator encodes, into a struct with
    the same fields and keys. *)
Definition PowerStatus := Simulator.PowerStatus.

Definition getenv (env : string -> string) (k def : string) : string :=
  let v := env k in
  if negb (String.eqb v "") then v else def.

(** *** The events of the CloudEvents SDK, as far as the poller writes them

    The SDK is not in the repository; its setters are written here as the
    SDK (sdk-go v2, events of version 1.0) has them.  An event has its
    attributes, its extensions, its data, and the fields that a setter
    refused ([FieldErrors], which [Validate] reports, and [Send] validates
    before it transmits).  The value of an extension is here a boolean or a
    string. *)
Inductive ExtValue := ExtBool (b : bool) | ExtString (s : string).

Record Event := {
  source : string;
  type_ : string;
  extensions : list (string * ExtValue);
  field_errors : list string;
  data : option PowerStatus
}.

Definition NewEvent : Event := {|
  source := ""; type_ := ""; extensions := []; field_errors := [];
  data := None
|}.

(** The name of an extension is not empty and made of ASCII letters and
    digits. *)
Definition is_alnum (c : ascii) : bool :=
  let b := byte_of c in
  in_range 97 b 122 || in_range 65 b 90 || in_range 48 b 57.

Fixpoint all_alnum (key : string) : bool :=
  match key with
  | EmptyString => true
  | String c rest => is_alnum c && all_alnum rest
  end.

Definition validateExtensionName (key : string) : option error :=
  if (String.length key <? 1)%nat
  then Some "bad key, CloudEvents attribute names MUST NOT be empty"
  else if all_alnum key then None
  else Some ("bad key, CloudEvents attribute names MUST consist of "
             +++ "lower-case letters ('a' to 'z'), upper-case letters "
             +++ "('A' to 'Z') or digits ('0' to '9') from the ASCII "
             +++ "character set").

(** [strings.ToLower], on the ASCII names that pass the check. *)
Fixpoint ToLower (s : string) : string :=
  match s with
  | EmptyString => EmptyString
  | String c rest =>
      String (if in_range 65 (byte_of c) 90
              then ascii_of_N (N_of_ascii c + 32) else c)
        (ToLower rest)
  end.

Definition without {A} (k : string) (m : list (string * A))
  : list (string * A) :=
  filter (fun p => negb (String.eqb (fst p) k)) m.

(** [e.Extensions()[name]] *)
Fixpoint extension (m : list (string * ExtValue)) (name : string)
  : option ExtValue :=
  match m with
  | [] => None
  | (k, v) :: rest => if String.eqb k name then Some v else extension rest name
  end.

(** [event.SetExtension(name, value)]: a name that is refused leaves the
    extensions as they are and is recorded among the field errors; a name
    that is accepted is set, in lower case, and cleared of its field error.
    (The SDK also refuses the names of the attributes of the
    specification, which are none of the poller's.) *)
Definition SetExtension (e : Event) (name : string) (value : ExtValue)
  : Event :=
  let field := "extension:" +++ name in
  match validateExtensionName name with
  | Some _ =>
      {| source := source e; type_ := type_ e;
         extensions := extensions e;
         field_errors :=
           field :: filter (fun f => negb (String.eqb f field))
                      (field_errors e);
         data := data e |}
  | None =>
      {| source := source e; type_ := type_ e;
         extensions :=
           (ToLower name, value) :: without (ToLower name) (extensions e);
         field_errors :=
           filter (fun f => negb (String.eqb f field)) (field_errors e);
         data := data e |}
  end.

Definition SetSource (e : Event) (s : string) : Event :=
  {| source := s; type_ := type_ e; extensions := extensions e;
     field_errors := field_errors e; data := data e |}.

Definition SetType (e : Event) (t : string) : Event :=
  {| source := source e; type_ := t; extensions := extensions e;
     field_errors := field_errors e; data := data e |}.

(** [event.SetData(cloudevents.ApplicationJSON, data)], the data being the
    status encoded as JSON. *)
Definition SetData (e : Event) (status : PowerStatus) : Event :=
  {| source := source e; type_ := type_ e; extensions := extensions e;
     field_errors := field_errors e; data := Some status |}.

(** The event that the loop of [main] builds for a status it fetched, the
    time of the event apart. *)
Definition event_of (status : PowerStatus) : Event :=
  let shouldRun :=
    (Simulator.BatteryPercent status <? 30)
    && String.eqb (Simulator.TimeOfDay status) "night"
    && negb (Simulator.IsCharging status) in
  let powerState := "ok" in
  let powerState := if shouldRun then "low" else powerState in
  let event := NewEvent in
  let event := SetSource event "power-poller" in
  let event := SetType event "dev.juliand.power.status" in
  let event := SetExtension event "should_run" (ExtBool shouldRun) in
  let event := SetExtension event "power_state" (ExtString powerState) in
  let event := SetExtension event "node"
                 (ExtString (Simulator.NodeName status)) in
  SetData event status.

(** Two statuses of the node [pi-1]: at night on a battery of 12, which the
    policy of the poller calls low, and by day on a battery of 90. *)
Definition low_status : PowerStatus := {|
  Simulator.NodeName := "pi-1"; Simulator.BatteryPercent := 12;
  Simulator.IsCharging := false; Simulator.TimeOfDay := "night";
  Simulator.SolarAvailable := false;
  Simulator.LastUpdated := "2025-10-04T21:00:00Z"
|}.

Definition ok_status : PowerStatus := {|
  Simulator.NodeName := "pi-1"; Simulator.BatteryPercent := 90;
  Simulator.IsCharging := false; Simulator.TimeOfDay := "day";
  Simulator.SolarAvailable := true;
  Simulator.LastUpdated := "2025-10-04T12:00:00Z"
|}.

End Poller.

(** A backend that is down, one that answers with a healthy reading taken
    on 4 October 2025, and a clock that reads one second more each time. *)
Definition down_backend : Net.Env FuncPower.Power := {|
  Net.wall_at := fun k => 1759600000000000000 + 1000000000 * Z.of_nat k;
  Net.mono_at := fun k => 1000000000 * Z.of_nat k;
  Net.get := fun _ _ => Net.DoFailed "connection refused"
|}.

Definition warm_reading : FuncPower.Power := {|
  FuncPower.Timestamp :=
    {| Net.wall := 1759600000000000000; Net.mono := None |};
  FuncPower.TempC := 53.5; FuncPower.VoltV := 0.875;
  FuncPower.ClockArmMHz := 1500;
  FuncPower.Undervoltage := false; FuncPower.FreqCapped := false;
  FuncPower.Throttled := false; FuncPower.LastError := ""
|}.

Definition up_backend : Net.Env FuncPower.Power := {|
  Net.wall_at := fun k => 1759600000000000000 + 1000000000 * Z.of_nat k;
  Net.mono_at := fun k => 1000000000 * Z.of_nat k;
  Net.get := fun _ _ => Net.Decoded warm_reading
|}.

Definition down_status_backend : Net.Env StatusProxy.PowerStatus := {|
  Net.wall_at := fun k => 1759600000000000000 + 1000000000 * Z.of_nat k;
  Net.mono_at := fun k => 1000000000 * Z.of_nat k;
  Net.get := fun _ _ => Net.DoFailed "connection refused"
|}.

(** [n] requests in a row, as [Handle] makes them: the variables after the
    [n] calls of [getPower], and the readings returned, the last first. *)
Fixpoint getPower_calls (E : Net.Env FuncPower.Power) (powerURL : string)
    (n : nat) (v : FuncPower.Vars)
  : list FuncPower.Power * FuncPower.Vars :=
  match n with
  | O => ([], v)
  | S k =>
      let '(p, _, v1) := FuncPower.getPower E powerURL v in
      let '(ps, v2) := getPower_calls E powerURL k v1 in
      (ps ++ [p], v2)%list
  end.

(** * Properties *)

(** ** Strings *)

Lemma length_app (a b : string) :
  String.length (a +++ b) = (String.length a + String.length b)%nat.
Proof. induction a as [|c a IH]; simpl; [reflexivity | now rewrite IH]. Qed.

Lemma app_empty_r (a : string) : a +++ "" = a.
Proof. induction a as [|c a IH]; simpl; [reflexivity | now rewrite IH]. Qed.

Lemma app_assoc (a b c : string) : (a +++ b) +++ c = a +++ b +++ c.
Proof. induction a as [|x a IH]; simpl; [reflexivity | now rewrite IH]. Qed.

Lemma str_take_app (a b : string) : str_take (String.length a) (a +++ b) = a.
Proof. induction a as [|c a IH]; simpl; [now destruct b | now rewrite IH]. Qed.

Lemma str_drop_app (a b : string) : str_drop (String.length a) (a +++ b) = b.
Proof. induction a as [|c a IH]; simpl; [reflexivity | exact IH]. Qed.

Lemma str_take_drop (n : nat) (s : string) : str_take n s +++ str_drop n s = s.
Proof.
  revert s; induction n as [|n IH]; intros [|c s]; simpl; try reflexivity.
  now rewrite IH.
Qed.

Lemma HasPrefix_app (p s : string) : HasPrefix (p +++ s) p = true.
Proof.
  unfold HasPrefix. rewrite length_app, str_take_app, String.eqb_refl.
  rewrite andb_true_r. apply Nat.leb_le. lia.
Qed.

Lemma HasPrefix_inv (s p : string) :
  HasPrefix s p = true -> s = p +++ str_drop (String.length p) s.
Proof.
  unfold HasPrefix. intros Hp. apply andb_prop in Hp as [_ He].
  apply String.eqb_eq in He.
  pose proof (str_take_drop (String.length p) s) as E.
  rewrite He in E. now symmetry.
Qed.

Lemma HasSuffix_app (s q : string) : HasSuffix (s +++ q) q = true.
Proof.
  unfold HasSuffix. rewrite length_app.
  replace (String.length s + String.length q - String.length q)%nat
    with (String.length s) by lia.
  rewrite str_drop_app, String.eqb_refl, andb_true_r.
  apply Nat.leb_le. lia.
Qed.

Lemma HasSuffix_inv (s q : string) :
  HasSuffix s q = true ->
  s = str_take (String.length s - String.length q) s +++ q.
Proof.
  unfold HasSuffix. intros Hq. apply andb_prop in Hq as [_ He].
  apply String.eqb_eq in He.
  pose proof (str_take_drop (String.length s - String.length q) s) as E.
  rewrite He in E. now symmetry.
Qed.

Lemma TrimPrefix_app (p s : string) : TrimPrefix (p +++ s) p = s.
Proof. unfold TrimPrefix. now rewrite HasPrefix_app, str_drop_app. Qed.

Lemma TrimSuffix_app (s q : string) : TrimSuffix (s +++ q) q = s.
Proof.
  unfold TrimSuffix. rewrite HasSuffix_app, length_app.
  replace (String.length s + String.length q - String.length q)%nat
    with (String.length s) by lia.
  apply str_take_app.
Qed.

(** What [TrimPrefix] and [TrimSuffix] do, without slices: they remove the
    affix when the string has it and leave the string as it is otherwise. *)
Lemma TrimPrefix_spec (s p : string) :
  (exists r, s = p +++ r /\ TrimPrefix s p = r)
  \/ (HasPrefix s p = false /\ TrimPrefix s p = s).
Proof.
  unfold TrimPrefix. destruct (HasPrefix s p) eqn:Hp.
  - left. exists (str_drop (String.length p) s). split; [|reflexivity].
    now apply HasPrefix_inv.
  - right. now split.
Qed.

Lemma TrimSuffix_spec (s q : string) :
  (exists r, s = r +++ q /\ TrimSuffix s q = r)
  \/ (HasSuffix s q = false /\ TrimSuffix s q = s).
Proof.
  unfold TrimSuffix. destruct (HasSuffix s q) eqn:Hq.
  - left. exists (str_take (String.length s - String.length q) s).
    split; [|reflexivity]. now apply HasSuffix_inv.
  - right. now split.
Qed.

(** ** ParseFloat on decimal numbers *)

Ltac each_byte c :=
  destruct c as [[|] [|] [|] [|] [|] [|] [|] [|]]; vm_compute;
  try reflexivity; try discriminate; try (intros; discriminate).

Lemma digit_not_x (c : ascii) :
  is_digit c || (byte_of c =? 46) = true -> (lower c =? 120) = false.
Proof. each_byte c. Qed.

Lemma digit_not_exp (c : ascii) :
  is_digit c || (byte_of c =? 46) = true -> (lower c =? 101) = false.
Proof. each_byte c. Qed.

Lemma digit_not_special (c : ascii) :
  is_digit c || (byte_of c =? 46) = true ->
  (byte_of c =? 43) || (byte_of c =? 45) = false
  /\ (byte_of c =? 105) || (byte_of c =? 73) = false
  /\ (byte_of c =? 110) || (byte_of c =? 78) = false
  /\ (byte_of c =? 95) = false
  /\ ((if in_range 65 (byte_of c) 90 then byte_of c + 32 else byte_of c)
      =? 105) = false.
Proof. each_byte c; intros; repeat split. Qed.

Lemma dec_scan_head (c : ascii) (r : string) n k dg v :
  dec_scan (String c r) n k dg = Some v ->
  is_digit c || (byte_of c =? 46) = true.
Proof.
  simpl. destruct (is_digit c); [reflexivity|].
  destruct (byte_of c =? 46); [reflexivity | discriminate].
Qed.

Lemma dec_scan_nonempty n k v : dec_scan "" n k false = Some v -> False.
Proof. discriminate. Qed.

(** The digit loop of [readFloat] on a decimal number: it reads all of it,
    gathers the same digits and places the point where the number has it. *)
Lemma read_mantissa_decimal (s : string) :
  forall n k dg mant nd dp sawdot sawdigits us n' k',
    dec_scan s n k dg = Some (n', k') ->
    mant = n -> sawdigits = dg -> 0 <= nd -> (nd = 0 -> mant = 0) ->
    match k with
    | None => sawdot = false
    | Some k => sawdot = true /\ dp - nd = - k
    end ->
    exists nd' dp' sd',
      read_mantissa 10 s mant nd dp sawdot sawdigits us
      = Build_mant_scan n' nd' dp' sd' true us ""
      /\ (if sd' then dp' else nd') - nd' = - k'
      /\ (nd' = 0 -> n' = 0).
Proof.
  induction s as [|c r IH]; intros n k dg mant nd dp sawdot sawdigits us n' k'
    Hscan Hm Hd Hnd Hz Hk.
  - simpl in Hscan. destruct dg; [|discriminate]. injection Hscan as <- <-.
    subst. exists nd, dp, sawdot. simpl. split; [reflexivity|]. split; [|exact Hz].
    destruct k as [k|]; [destruct Hk as [-> Hk]; exact Hk | subst; lia].
  - pose proof (dec_scan_head _ _ _ _ _ _ Hscan) as Hc.
    destruct (digit_not_special c Hc) as (_ & _ & _ & Hus & _).
    cbn [dec_scan] in Hscan. cbn [read_mantissa]. cbv zeta. rewrite Hus.
    unfold is_digit in Hscan, Hc.
    destruct (in_range 48 (byte_of c) 57) eqn:Hdig.
    + assert ((byte_of c =? 46) = false) as ->.
      { unfold in_range in Hdig. apply andb_prop in Hdig as [H1 _].
        apply Z.leb_le in H1. apply Z.eqb_neq. lia. }
      destruct ((byte_of c =? 48) && (nd =? 0)) eqn:Hlead.
      * apply andb_prop in Hlead as [H0 Hn0].
        apply Z.eqb_eq in H0. apply Z.eqb_eq in Hn0.
        eapply IH; try eassumption; try reflexivity.
        -- specialize (Hz Hn0). lia.
        -- destruct k as [k|]; simpl; [|exact Hk].
           destruct Hk as [-> Hk]. split; [reflexivity | lia].
      * eapply IH; try eassumption; try reflexivity.
        -- lia.
        -- lia.
        -- lia.
        -- destruct k as [k|]; simpl; [|exact Hk].
           destruct Hk as [-> Hk]. split; [reflexivity | lia].
    + simpl in Hc. rewrite Hc in *.
      destruct k as [k|]; [discriminate|]. subst sawdot.
      eapply IH; try eassumption; try reflexivity.
      split; [reflexivity | lia].
Qed.

Lemma dec_scan_step (c : ascii) (r : string) n k dg :
  dec_scan (String c r) n k dg
  = if is_digit c
    then dec_scan r (10 * n + (byte_of c - 48)) (option_map Z.succ k) true
    else if byte_of c =? 46 then
      match k with
      | None => dec_scan r n (Some 0) dg
      | Some _ => None
      end
    else None.
Proof. reflexivity. Qed.

Lemma has_hex_prefix_decimal (t : string) n k dg v :
  dec_scan t n k dg = Some v -> has_hex_prefix t = false.
Proof.
  destruct t as [|d0 [|d1 [|d2 t]]]; try reflexivity.
  intros Hscan. unfold has_hex_prefix.
  assert (is_digit d1 || (byte_of d1 =? 46) = true) as Hd1.
  { rewrite dec_scan_step in Hscan. destruct (is_digit d0).
    - eapply dec_scan_head; exact Hscan.
    - destruct (byte_of d0 =? 46); [|discriminate].
      destruct k; [discriminate|]. eapply dec_scan_head; exact Hscan. }
  rewrite (digit_not_x _ Hd1). apply andb_false_r.
Qed.

Lemma special_inf_decimal (neg : bool) (nsign : nat) (t : string) n k v :
  dec_scan t n k false = Some v -> special_inf neg nsign t = None.
Proof.
  destruct t as [|c r]; [discriminate|]. intros Hscan.
  apply dec_scan_head in Hscan.
  destruct (digit_not_special c Hscan) as (_ & _ & _ & _ & Hi).
  unfold special_inf. cbn [commonPrefixLenIgnoreCase]. cbv zeta.
  change (byte_of "i") with 105. rewrite Hi. reflexivity.
Qed.

Lemma special_decimal (d : string) v :
  decimal_number d = Some v -> special d = None.
Proof.
  destruct d as [|c r]; [discriminate|]. unfold decimal_number, special.
  cbv zeta. intros Hd.
  destruct (byte_of c =? 45) eqn:Hminus.
  - rewrite orb_true_r.
    destruct (dec_scan r 0 None false) as [[n k]|] eqn:Hscan; [|discriminate].
    eapply special_inf_decimal; exact Hscan.
  - destruct (byte_of c =? 43) eqn:Hplus.
    + cbn [orb].
      destruct (dec_scan r 0 None false) as [[n k]|] eqn:Hscan; [|discriminate].
      eapply special_inf_decimal; exact Hscan.
    + destruct (dec_scan (String c r) 0 None false) as [[n k]|] eqn:Hscan;
        [|discriminate].
      apply dec_scan_head in Hscan.
      destruct (digit_not_special c Hscan) as (_ & -> & -> & _ & _).
      reflexivity.
Qed.

(** [readFloat] on a decimal number: sign, digits and exponent of the
    number, nothing left unread. *)
Lemma readFloat_decimal (d : string) (neg : bool) (n k : Z) :
  decimal_number d = Some (neg, n, k) ->
  readFloat d
  = Some (Build_float_lit neg false n (if n =? 0 then 0 else - k) "").
Proof.
  destruct d as [|c r]; [discriminate|]. unfold decimal_number, readFloat.
  cbv zeta. intros Hd.
  assert (exists t,
    (if (byte_of c =? 43) || (byte_of c =? 45) then r else String c r) = t
    /\ neg = (byte_of c =? 45)
    /\ dec_scan t 0 None false = Some (n, k)) as (t & Ht & Hneg & Hscan).
  { destruct (byte_of c =? 45) eqn:Hminus.
    - rewrite orb_true_r. exists r.
      destruct (dec_scan r 0 None false) as [[n0 k0]|]; [|discriminate].
      injection Hd as <- <- <-. auto.
    - rewrite orb_false_r. destruct (byte_of c =? 43) eqn:Hplus.
      + exists r.
        destruct (dec_scan r 0 None false) as [[n0 k0]|]; [|discriminate].
        injection Hd as <- <- <-. auto.
      + exists (String c r).
        destruct (dec_scan (String c r) 0 None false) as [[n0 k0]|];
          [|discriminate].
        injection Hd as <- <- <-. auto. }
  rewrite Ht, <- Hneg. rewrite (has_hex_prefix_decimal _ _ _ _ _ Hscan).
  destruct (read_mantissa_decimal t 0 None false 0 0 0 false false false n k
              Hscan eq_refl eq_refl (Z.le_refl 0) (fun _ => eq_refl) eq_refl)
    as (nd' & dp' & sd' & Hread & Hdp & Hzero).
  rewrite Hread. cbn [ms_sawdigits ms_sawdot ms_dp ms_nd ms_rest ms_mant
                      ms_underscores negb read_exponent andb].
  f_equal. f_equal. destruct (n =? 0); [reflexivity | lia].
Qed.

(** [ParseFloat] on a decimal number [n / 10^k]: the binary64 nearest to it,
    or a range error when that is an infinity. *)
Lemma ParseFloat_decimal `{GoRuntime} (d : string) (neg : bool) (n k : Z) :
  decimal_number d = Some (neg, n, k) ->
  ParseFloat d
  = (SF2Prim (f64_of_dec neg n (- k)),
     match f64_of_dec neg n (- k) with
     | S754_infinity _ => Some (rangeError "ParseFloat" d)
     | _ => None
     end).
Proof.
  intros Hd. unfold ParseFloat.
  rewrite (special_decimal _ _ Hd), (readFloat_decimal _ _ _ _ Hd).
  cbn [fl_rest fl_hex fl_neg fl_mant fl_exp String.eqb negb].
  assert (f64_of_dec neg n (if n =? 0 then 0 else - k)
          = f64_of_dec neg n (- k)) as ->.
  { destruct n; reflexivity. }
  destruct (f64_of_dec neg n (- k)); reflexivity.
Qed.

(** ** parseTemp *)

Lemma parseTemp_eq `{GoRuntime} (out : string) :
  parseTemp out
  = let o := TrimSuffix (TrimPrefix out "temp=") "'C" in
    match snd (ParseFloat o) with
    | Some err =>
        (0%float,
         Some ("parseTemp: out=" +++ Quote out +++ " stripped=" +++ Quote o
               +++ ": " +++ err))
    | None => (fst (ParseFloat o), None)
    end.
Proof. unfold parseTemp. cbv zeta. now destruct (ParseFloat _) as [v [e|]]. Qed.

(** C2, against the claim as stated: the input [53.2] has neither the prefix
    [temp=] nor the suffix ['C], and [parseTemp] returns 53.2 (the binary64
    0x1.a99999999999ap+5) for it without an error, as it does for
    [temp=53.2'C]. *)
Lemma parseTemp_accepts_bare_number :
  HasPrefix "53.2" "temp=" = false
  /\ HasSuffix "53.2" "'C" = false
  /\ @parseTemp plain_runtime "53.2" = (0x1.a99999999999ap+5%float, None)
  /\ @parseTemp plain_runtime "temp=53.2'C"
     = (0x1.a99999999999ap+5%float, None).
Proof. repeat split; vm_compute; reflexivity. Qed.

(** C2, amended: [parseTemp] removes the prefix [temp=] and the suffix ['C]
    where the input has them and returns what [ParseFloat] makes of the
    rest.  So it succeeds exactly when [ParseFloat] accepts the rest, affixes
    or not; on [temp=<d>'C] it returns [ParseFloat(<d>)]; and for a decimal
    number [<d> = n / 10^k] that is the binary64 nearest to it, unless that
    is an infinity, where [parseTemp] fails. *)
Theorem parseTemp_amended `{GoRuntime} :
  (forall out v,
     parseTemp out = (v, None)
     <-> ParseFloat (TrimSuffix (TrimPrefix out "temp=") "'C") = (v, None))
  /\ (forall out,
        snd (parseTemp out) = None
        <-> snd (ParseFloat (TrimSuffix (TrimPrefix out "temp=") "'C")) = None)
  /\ (forall d v,
        parseTemp ("temp=" +++ d +++ "'C") = (v, None)
        <-> ParseFloat d = (v, None))
  /\ (forall d neg n k,
        decimal_number d = Some (neg, n, k) ->
        match f64_of_dec neg n (- k) with
        | S754_infinity _ =>
            exists e, parseTemp ("temp=" +++ d +++ "'C") = (0%float, Some e)
        | r => parseTemp ("temp=" +++ d +++ "'C") = (SF2Prim r, None)
        end).
Proof.
  assert (forall out v,
     parseTemp out = (v, None)
     <-> ParseFloat (TrimSuffix (TrimPrefix out "temp=") "'C") = (v, None))
    as Hiff.
  { intros out v. rewrite parseTemp_eq. cbv zeta.
    destruct (ParseFloat _) as [x [e|]]; cbn [fst snd];
      split; intros Heq; try discriminate; congruence. }
  assert (forall d, TrimSuffix (TrimPrefix ("temp=" +++ d +++ "'C") "temp=") "'C"
                    = d) as Hstrip.
  { intros d. now rewrite TrimPrefix_app, TrimSuffix_app. }
  split; [exact Hiff|]. split; [|split].
  - intros out. rewrite parseTemp_eq. cbv zeta.
    destruct (ParseFloat _) as [x [e|]]; cbn [fst snd];
      split; intros Heq; try discriminate; reflexivity.
  - intros d v. rewrite Hiff, Hstrip. reflexivity.
  - intros d neg n k Hd. rewrite parseTemp_eq. cbv zeta. rewrite Hstrip.
    rewrite (ParseFloat_decimal _ _ _ _ Hd). cbn [fst snd].
    destruct (f64_of_dec neg n (- k)); try reflexivity. eexists; reflexivity.
Qed.

(** The amended C2 at [temp=53.2'C]: 532 / 10^1, sign positive. *)
Lemma parseTemp_amended_witness :
  decimal_number "53.2" = Some (false, 532, 1)
  /\ @parseTemp plain_runtime ("temp=" +++ "53.2" +++ "'C")
     = (SF2Prim (f64_of_dec false 532 (- 1)), None).
Proof.
  split; [reflexivity|].
  exact (proj2 (proj2 (proj2 (@parseTemp_amended plain_runtime)))
           "53.2" false 532 1 eq_refl).
Defined.

(** ** ParseUint in base 16 *)

Lemma digit_val_hex (c : ascii) :
  match digit_val c with
  | Some d => if 16 <=? d then None else Some d
  | None => None
  end = hex_digit c.
Proof. each_byte c. Qed.

Lemma hex_digit_range (c : ascii) (d : Z) :
  hex_digit c = Some d -> 0 <= d < 16.
Proof.
  destruct c as [[|] [|] [|] [|] [|] [|] [|] [|]]; intros Hd;
    vm_compute in Hd; try discriminate; injection Hd as <-; lia.
Qed.

Lemma hex_value_ge (s : string) :
  forall n v, 0 <= n -> hex_value s n = Some v -> n <= v.
Proof.
  induction s as [|c r IH]; intros n v Hn Hv; cbn [hex_value] in Hv.
  - injection Hv as <-. lia.
  - destruct (hex_digit c) as [d|] eqn:Hd; [|discriminate].
    apply hex_digit_range in Hd. apply IH in Hv; lia.
Qed.

(** The loop of [ParseUint] in base 16 succeeds exactly on hexadecimal
    digits whose value stays below [2^64], and returns that value: the
    [uint64] arithmetic never wraps before a range check stops the loop. *)
Lemma parse_uint_loop_hex (s : string) :
  forall n v, 0 <= n < 2 ^ 64 ->
    parse_uint_loop 16 s n = ScanOk v
    <-> hex_value s n = Some v /\ v < 2 ^ 64.
Proof.
  induction s as [|c r IH]; intros n v Hn.
  - cbn [parse_uint_loop hex_value]. split.
    + intros [= <-]. split; [reflexivity | lia].
    + intros [[= <-] _]. reflexivity.
  - cbn [parse_uint_loop hex_value]. cbv zeta.
    pose proof (digit_val_hex c) as Hdv.
    destruct (digit_val c) as [d|].
    2:{ rewrite <- Hdv. split; [discriminate | intros [? _]; discriminate]. }
    destruct (16 <=? d) eqn:Hbig.
    { rewrite <- Hdv. split; [discriminate | intros [? _]; discriminate]. }
    rewrite <- Hdv. pose proof (hex_digit_range c d (eq_sym Hdv)) as Hd.
    change (maxUint64 / 16 + 1) with 1152921504606846976.
    change maxUint64 with 18446744073709551615.
    change (2 ^ 64) with 18446744073709551616 in *.
    destruct (1152921504606846976 <=? n) eqn:Hcut.
    { apply Z.leb_le in Hcut. split; [discriminate|].
      intros [Hv Hlt]. apply hex_value_ge in Hv; lia. }
    apply Z.leb_gt in Hcut.
    rewrite (Z.mod_small (n * 16)) by lia.
    rewrite (Z.mod_small (n * 16 + d)) by lia.
    assert ((n * 16 + d <? n * 16) = false) as -> by (apply Z.ltb_ge; lia).
    assert ((18446744073709551615 <? n * 16 + d) = false) as ->
      by (apply Z.ltb_ge; lia).
    cbn [orb]. replace (16 * n + d) with (n * 16 + d) by lia.
    apply IH. lia.
Qed.

Lemma ParseUint16_spec `{GoRuntime} (s : string) :
  match hex_uint64 s with
  | Some v => ParseUint16 s = (v, None)
  | None => exists n e, ParseUint16 s = (n, Some e)
  end.
Proof.
  unfold ParseUint16, hex_uint64. destruct s as [|c r].
  - cbn. eauto.
  - cbn [String.eqb]. set (s := String c r).
    assert (0 <= 0 < 2 ^ 64) as H0 by (split; [lia | reflexivity]).
    destruct (parse_uint_loop 16 s 0) as [n| |] eqn:Hp.
    + apply (parse_uint_loop_hex s 0 n H0) in Hp as [Hv Hlt].
      rewrite Hv. apply Z.ltb_lt in Hlt. now rewrite Hlt.
    + destruct (hex_value s 0) as [v|] eqn:Hv;
        [destruct (v <? 2 ^ 64) eqn:Hlt|]; eauto.
      apply Z.ltb_lt in Hlt.
      rewrite (proj2 (parse_uint_loop_hex s 0 v H0) (conj Hv Hlt)) in Hp.
      discriminate.
    + destruct (hex_value s 0) as [v|] eqn:Hv;
        [destruct (v <? 2 ^ 64) eqn:Hlt|]; eauto.
      apply Z.ltb_lt in Hlt.
      rewrite (proj2 (parse_uint_loop_hex s 0 v H0) (conj Hv Hlt)) in Hp.
      discriminate.
Qed.

(** [(val & (1 << k)) != 0] is bit [k] of [val]. *)
Lemma mask_test_bit (val k : Z) :
  0 <= k -> negb (Z.land val (Z.shiftl 1 k) =? 0) = Z.testbit val k.
Proof.
  intros Hk. rewrite Z.shiftl_1_l.
  assert (Z.land val (2 ^ k) = if Z.testbit val k then 2 ^ k else 0) as ->.
  { apply Z.bits_inj'. intros i Hi.
    rewrite Z.land_spec, Z.pow2_bits_eqb by exact Hk.
    destruct (Z.eqb_spec k i) as [<-|Hne].
    - rewrite andb_true_r. destruct (Z.testbit val k) eqn:Hb.
      + rewrite Z.pow2_bits_eqb by exact Hk. now rewrite Z.eqb_refl.
      + now rewrite Z.bits_0.
    - rewrite andb_false_r. destruct (Z.testbit val k).
      + rewrite Z.pow2_bits_eqb by exact Hk. symmetry. now apply Z.eqb_neq.
      + now rewrite Z.bits_0. }
  destruct (Z.testbit val k); [|reflexivity].
  assert (0 < 2 ^ k) by (apply Z.pow_pos_nonneg; lia).
  destruct (Z.eqb_spec (2 ^ k) 0); [lia | reflexivity].
Qed.

(** ** parseThrottleBits *)

(** C4: [parseThrottleBits] strips [throttled=] and then [0x] where the
    input has them, reads the rest as a hexadecimal [uint64] and fails when
    it is not one; on success it returns the input without [throttled=] and
    the bits 0, 1 and 2 of the value.  On [throttled=0x50005] these are
    true, false, true and on [throttled=0x0] all false. *)
Theorem parseThrottleBits_spec `{GoRuntime} :
  (forall out,
     let hex := TrimPrefix out "throttled=" in
     match hex_uint64 (TrimPrefix hex "0x") with
     | Some val =>
         parseThrottleBits out
         = (hex, Z.testbit val 0, Z.testbit val 1, Z.testbit val 2, None)
     | None =>
         exists e, parseThrottleBits out = (hex, false, false, false, Some e)
     end)
  /\ parseThrottleBits "throttled=0x50005"
     = ("0x50005", true, false, true, None)
  /\ parseThrottleBits "throttled=0x0" = ("0x0", false, false, false, None).
Proof.
  split; [|split; reflexivity].
  intros out hex.
  assert ((if HasPrefix out "throttled=" then TrimPrefix out "throttled="
           else out) = hex) as Hhex.
  { unfold hex, TrimPrefix. now destruct (HasPrefix out "throttled="). }
  unfold parseThrottleBits. cbv zeta. rewrite Hhex.
  pose proof (ParseUint16_spec (TrimPrefix hex "0x")) as Hp.
  destruct (hex_uint64 (TrimPrefix hex "0x")) as [val|].
  - rewrite Hp. now rewrite !mask_test_bit by lia.
  - destruct Hp as (n & e & ->). eexists; reflexivity.
Qed.

(** ** Split on [=] *)

Lemma ascii_eqb_eq_sign (c : ascii) : Ascii.eqb c "=" = (byte_of c =? 61).
Proof. each_byte c. Qed.

Lemma split_step (c : ascii) (r cur : string) :
  split_from 0 "=" (String c r) cur
  = if byte_of c =? 61
    then cur :: split_from 0 "=" r ""
    else split_from 0 "=" r (cur +++ String c "").
Proof.
  cbn [split_from]. unfold HasPrefix.
  cbn [String.length str_take Nat.leb String.eqb andb Nat.sub].
  rewrite ascii_eqb_eq_sign. now destruct (byte_of c =? 61).
Qed.

Lemma app_cons_shift (cur : string) (c : ascii) (r : string) :
  (cur +++ String c "") +++ r = cur +++ String c r.
Proof. now rewrite app_assoc. Qed.

Lemma split_no_sep (s : string) :
  forall cur, has_eq s = false -> split_from 0 "=" s cur = [cur +++ s].
Proof.
  induction s as [|c r IH]; intros cur Hs.
  - cbn. now rewrite app_empty_r.
  - cbn [has_eq] in Hs. apply orb_false_elim in Hs as [Hc Hr].
    rewrite split_step, Hc, IH by exact Hr. now rewrite app_cons_shift.
Qed.

Lemma split_nonempty (s cur : string) : split_from 0 "=" s cur <> [].
Proof.
  revert cur. induction s as [|c r IH]; intros cur; [discriminate|].
  rewrite split_step. destruct (byte_of c =? 61); [discriminate | apply IH].
Qed.

Lemma split_single (s : string) :
  forall cur b, split_from 0 "=" s cur = [b] ->
    has_eq s = false /\ b = cur +++ s.
Proof.
  induction s as [|c r IH]; intros cur b Hs.
  - cbn in Hs. injection Hs as <-. now rewrite app_empty_r.
  - rewrite split_step in Hs. cbn [has_eq].
    destruct (byte_of c =? 61).
    + injection Hs as _ Hs. now apply split_nonempty in Hs.
    + apply IH in Hs as [Hr ->]. now rewrite app_cons_shift.
Qed.

Lemma split_two (s : string) :
  forall cur a b, split_from 0 "=" s cur = [a; b] ->
    exists a', a = cur +++ a' /\ s = a' +++ "=" +++ b
               /\ has_eq a' = false /\ has_eq b = false.
Proof.
  induction s as [|c r IH]; intros cur a b Hs; [discriminate|].
  rewrite split_step in Hs. destruct (byte_of c =? 61) eqn:Hc.
  - injection Hs as <- Hs. apply split_single in Hs as [Hr ->].
    exists "". rewrite app_empty_r. repeat split; try assumption.
    cbn. f_equal. apply Z.eqb_eq in Hc.
    destruct c as [[|] [|] [|] [|] [|] [|] [|] [|]]; vm_compute in Hc;
      try discriminate; reflexivity.
  - apply IH in Hs as (a' & -> & -> & Ha & Hb).
    exists (String c a'). rewrite app_cons_shift. repeat split; try assumption.
    cbn [has_eq]. now rewrite Hc.
Qed.

Lemma split_sep (a : string) :
  forall cur r, has_eq a = false ->
    split_from 0 "=" (a +++ "=" +++ r) cur
    = (cur +++ a) :: split_from 0 "=" r "".
Proof.
  induction a as [|c a IH]; intros cur r Ha.
  - cbn [String.append]. rewrite split_step. cbn. now rewrite app_empty_r.
  - cbn [has_eq] in Ha. apply orb_false_elim in Ha as [Hc Ha].
    change (String c a +++ "=" +++ r) with (String c (a +++ "=" +++ r)).
    rewrite split_step, Hc, IH by exact Ha.
    now rewrite app_cons_shift.
Qed.

(** [Split(out, "=")] has two parts exactly when [out] has one [=]; the
    parts are what stands before and after it. *)
Lemma Split_two_iff (out a b : string) :
  Split out "=" = [a; b]
  <-> out = a +++ "=" +++ b /\ has_eq a = false /\ has_eq b = false.
Proof.
  unfold Split. split.
  - intros Hs. apply split_two in Hs as (a' & -> & -> & Ha & Hb). auto.
  - intros (-> & Ha & Hb).
    rewrite split_sep by exact Ha. now rewrite split_no_sep by exact Hb.
Qed.

(** ** Rounding and parseClock *)

(** [half_away m d] is the integer nearest to [m / 2^d], and the one above
    when [m / 2^d] lies halfway between two integers. *)
Lemma half_away_nearest (m d : Z) :
  0 <= m -> 0 < d ->
  2 * Z.abs (half_away m d * 2 ^ d - m) <= 2 ^ d
  /\ (2 * (m mod 2 ^ d) = 2 ^ d -> half_away m d = m / 2 ^ d + 1).
Proof.
  intros Hm Hd. unfold half_away.
  assert (2 ^ d = 2 * 2 ^ (d - 1)) as ->.
  { rewrite <- Z.pow_succ_r by lia. f_equal. lia. }
  assert (0 < 2 ^ (d - 1)) as Hp by (apply Z.pow_pos_nonneg; lia).
  set (p := 2 ^ (d - 1)) in *.
  pose proof (Z.div_mod (m + p) (2 * p) ltac:(lia)) as Hdm.
  pose proof (Z.mod_pos_bound (m + p) (2 * p) ltac:(lia)) as Hr.
  pose proof (Z.div_mod m (2 * p) ltac:(lia)) as Hdm'.
  pose proof (Z.mod_pos_bound m (2 * p) ltac:(lia)) as Hr'.
  split.
  - set (q := (m + p) / (2 * p)) in *. set (r := (m + p) mod (2 * p)) in *.
    replace (q * (2 * p)) with (m + p - r) by lia. lia.
  - intros Htie. symmetry. apply (Z.div_unique_pos _ _ _ 0); lia.
Qed.

Lemma parseClock_eq `{GoRuntime} (out : string) :
  parseClock out
  = match Split out "=" with
    | [_; rhs] =>
        match snd (ParseFloat rhs) with
        | Some err =>
            (0%float, Some ("parseClock: " +++ Quote rhs +++ ": " +++ err))
        | None =>
            ((Round (fst (ParseFloat rhs) / 1000000 * 10) / 10)%float, None)
        end
    | _ => (0%float, Some ("parseClock: unexpected format " +++ Quote out))
    end.
Proof.
  unfold parseClock. cbv zeta.
  destruct (Split out "=") as [|a [|b [|c l]]]; try reflexivity.
  now destruct (ParseFloat b) as [hz [e|]].
Qed.

(** C3, against the claim as stated: the right-hand side [1.5e9] is not an
    integer, and [parseClock] does not fail on it; it returns 1500. *)
Lemma parseClock_accepts_non_integer :
  integer_number "1.5e9" = false
  /\ integer_number "1500398464" = true
  /\ @parseClock plain_runtime "frequency(48)=1.5e9" = (1500%float, None).
Proof. repeat split; vm_compute; reflexivity. Qed.

(** C3, amended: [parseClock] succeeds exactly on inputs with one [=] whose
    right-hand side [ParseFloat] accepts (any floating-point literal, not
    integers only); the result is then the hertz divided by 10^6, times ten,
    rounded to the nearest integer with halves away from zero, divided by
    ten.  On [frequency(48)=1500398464] it is 1500.4 (the binary64
    0x1.771999999999ap+10). *)
Theorem parseClock_amended `{GoRuntime} :
  (forall out v,
     parseClock out = (v, None)
     <-> exists label rhs hz,
           out = label +++ "=" +++ rhs
           /\ has_eq label = false /\ has_eq rhs = false
           /\ ParseFloat rhs = (hz, None)
           /\ v = (Round (hz / 1000000 * 10) / 10)%float)
  /\ (forall x s m e,
        Prim2SF x = S754_finite s m e -> e < 0 ->
        exists q,
          Round x = SF2Prim (binary_normalize prec emax
                               (if s then - q else q) 0 s)
          /\ 2 * Z.abs (q * 2 ^ (- e) - Zpos m) <= 2 ^ (- e)
          /\ (2 * (Zpos m mod 2 ^ (- e)) = 2 ^ (- e)
              -> q = Zpos m / 2 ^ (- e) + 1))
  /\ parseClock "frequency(48)=1500398464"
     = (0x1.771999999999ap+10%float, None).
Proof.
  split; [|split].
  - intros out v. rewrite parseClock_eq. split.
    + destruct (Split out "=") as [|a [|b [|c l]]] eqn:Hs; try discriminate.
      apply Split_two_iff in Hs as (-> & Ha & Hb).
      destruct (ParseFloat b) as [hz [e|]] eqn:Hp; cbn [fst snd];
        [discriminate|].
      intros [= <-]. exists a, b, hz. auto.
    + intros (label & rhs & hz & -> & Hl & Hr & Hp & ->).
      rewrite (proj2 (Split_two_iff _ label rhs)) by auto.
      now rewrite Hp.
  - intros x s m e Hx He. exists (half_away (Zpos m) (- e)).
    unfold Round. rewrite Hx.
    assert ((e <? 0) = true) as -> by (apply Z.ltb_lt; exact He).
    split; [reflexivity|]. apply half_away_nearest; lia.
  - vm_compute. reflexivity.
Qed.

(** ** One poll cycle *)

Lemma first_error_none `{GoRuntime} (q : Queries) :
  first_error (query_errors q) = None
  <-> failure (q_temp q) = None /\ failure (q_volts q) = None
      /\ failure (q_throttle q) = None /\ failure (q_clock q) = None.
Proof.
  unfold query_errors, exec_error. cbn [first_error].
  destruct (failure (q_temp q)), (failure (q_volts q)),
    (failure (q_throttle q)), (failure (q_clock q));
    split; try discriminate; try (intros (? & ? & ? & ?); discriminate);
    auto.
Qed.

(** The cycle when a command failed: the reading [pollOnce] builds from the
    outcomes of the four commands and three readings of the clock. *)
Lemma pollOnce_query_failed `{GoRuntime} (E : Env) (timeout : Duration)
    (w : World) (e : error) :
  let q := queries E timeout w in
  first_error (query_errors q) = Some e ->
  pollOnce E timeout w
  = ({| Timestamp := instant (clock E (S (reads w)));
        TempC := 0; VoltV := 0; ClockArmMHz := 0;
        ThrottleHex := ""; Undervoltage := false; FreqCapped := false;
        Throttled := false;
        Source := "vcgencmd";
        LastPollLatency :=
          Duration_String
            (subMono (clock E (S (S (reads w)))) (clock E (reads w)));
        RawTemp := raw_of (q_temp q); RawVolts := raw_of (q_volts q);
        RawThrottle := raw_of (q_throttle q); RawClock := raw_of (q_clock q);
        LastError := e;
        LastErrorAt := instant (clock E (S (S (S (reads w))))) |},
     Some e,
     {| reads := S (S (S (S (reads w)))); execs := S (S (S (S (execs w)))) |}).
Proof.
  intros q. subst q.
  cbv [pollOnce bind run Now Since ret reads execs queries query_errors
       exec_error raw_of q_temp q_volts q_throttle q_clock].
  repeat match goal with
         | |- context [failure ?o] => destruct (failure o)
         end;
    cbn [note_first first_error Time_Sub Join String.append];
    intros [= <-]; reflexivity.
Qed.

(** The cycle when the four commands succeeded: the reading of the first
    parser that fails, or else the reading of the four parsed values. *)
Lemma pollOnce_queries_ok `{GoRuntime} (E : Env) (timeout : Duration)
    (w : World) :
  let q := queries E timeout w in
  first_error (query_errors q) = None ->
  pollOnce E timeout w
  = match first_parse_failure q with
    | Some (m, raw, e) =>
        (parse_failure_reading m raw e (instant (clock E (S (reads w)))),
         Some e,
         {| reads := S (S (reads w)); execs := S (S (S (S (execs w)))) |})
    | None =>
        let '(thHex, uv, fc, thr, _) :=
          parseThrottleBits (raw_of (q_throttle q)) in
        ({| Timestamp := instant (clock E (S (reads w)));
            TempC := fst (parseTemp (raw_of (q_temp q)));
            VoltV := fst (parseVolts (raw_of (q_volts q)));
            ClockArmMHz := fst (parseClock (raw_of (q_clock q)));
            ThrottleHex := thHex; Undervoltage := uv; FreqCapped := fc;
            Throttled := thr;
            Source := "vcgencmd";
            LastPollLatency :=
              Duration_String
                (subMono (clock E (S (S (reads w)))) (clock E (reads w)));
            RawTemp := raw_of (q_temp q); RawVolts := raw_of (q_volts q);
            RawThrottle := raw_of (q_throttle q);
            RawClock := raw_of (q_clock q);
            LastError := ""; LastErrorAt := zeroTime |},
         None,
         {| reads := S (S (S (reads w)));
            execs := S (S (S (S (execs w)))) |})
    end.
Proof.
  intros q Hok. apply first_error_none in Hok as (Ht & Hv & Hth & Hc).
  subst q.
  cbv [pollOnce bind run Now Since ret reads execs queries
       first_parse_failure parse_failure_reading raw_of
       q_temp q_volts q_throttle q_clock] in *.
  rewrite Ht, Hv, Hth, Hc. cbn [note_first].
  repeat match goal with
         | |- context [parseTemp ?x] => destruct (parseTemp x) as [? [?|]]
         | |- context [parseVolts ?x] => destruct (parseVolts x) as [? [?|]]
         | |- context [parseClock ?x] => destruct (parseClock x) as [? [?|]]
         | |- context [parseThrottleBits ?x] =>
             destruct (parseThrottleBits x) as [[[[? ?] ?] ?] [?|]]
         end; reflexivity.
Qed.

(** ** The text of a duration *)

Lemma fmtInt_loop_step (k : nat) (buf : string) (v : Z) :
  fmtInt_loop (S k) buf v
  = if 0 <? v
    then fmtInt_loop k (String (digit_char (v mod 10)) buf) (v / 10)
    else buf.
Proof. reflexivity. Qed.

Lemma fmtInt_loop_length (fuel : nat) :
  forall buf v,
    (String.length buf <= String.length (fmtInt_loop fuel buf v))%nat.
Proof.
  induction fuel as [|k IH]; intros buf v; [cbn [fmtInt_loop]; lia|].
  rewrite fmtInt_loop_step. destruct (0 <? v); [|lia].
  etransitivity; [|apply IH]. cbn [String.length]. lia.
Qed.

Lemma fmtInt_length (buf : string) (v : Z) :
  (String.length buf <= String.length (fmtInt buf v))%nat.
Proof.
  unfold fmtInt. destruct (v =? 0); [cbn [String.length]; lia|].
  apply fmtInt_loop_length.
Qed.

Lemma fmtInt_longer (buf : string) (v : Z) :
  0 <= v -> (String.length buf < String.length (fmtInt buf v))%nat.
Proof.
  intros Hv. unfold fmtInt. destruct (Z.eqb_spec v 0) as [->|Hne].
  - cbn [String.length]. lia.
  - rewrite (fmtInt_loop_step 19).
    assert ((0 <? v) = true) as -> by (apply Z.ltb_lt; lia).
    eapply Nat.lt_le_trans; [|apply fmtInt_loop_length].
    cbn [String.length]. lia.
Qed.

Lemma fmtFrac_length (prec : nat) :
  forall buf v p,
    (String.length buf <= String.length (fst (fmtFrac buf v prec p)))%nat.
Proof.
  induction prec as [|k IH]; intros buf v p; cbn [fmtFrac].
  - destruct p; cbn [fst String.length]; lia.
  - cbv zeta. etransitivity; [|apply IH].
    destruct (p || negb (v mod 10 =? 0)); cbn [String.length]; lia.
Qed.

Lemma fmtFrac_rest (prec : nat) :
  forall buf v p, snd (fmtFrac buf v prec p) = v / 10 ^ Z.of_nat prec.
Proof.
  induction prec as [|k IH]; intros buf v p; cbn [fmtFrac].
  - cbn [snd]. now rewrite Z.div_1_r.
  - cbv zeta. rewrite IH, Nat2Z.inj_succ, Z.pow_succ_r by lia.
    rewrite Z.div_div by (try apply Z.pow_pos_nonneg; lia). reflexivity.
Qed.

Lemma fmtInt_loop_zero (fuel : nat) (buf : string) :
  fmtInt_loop fuel buf 0 = buf.
Proof. now destruct fuel. Qed.

Lemma digit_char_nonzero (v : Z) : 1 <= v <= 9 -> digit_char v <> "0"%char.
Proof.
  intros Hv.
  assert (v = 1 \/ v = 2 \/ v = 3 \/ v = 4 \/ v = 5 \/ v = 6 \/ v = 7
          \/ v = 8 \/ v = 9) as Hcases by lia.
  repeat destruct Hcases as [-> | Hcases]; try subst v; discriminate.
Qed.

(** The first digit [fmtInt] writes for a positive number is not a zero. *)
Lemma fmtInt_loop_head (fuel : nat) :
  forall buf v, 0 < v < 10 ^ Z.of_nat fuel ->
    exists c rest, fmtInt_loop fuel buf v = String c rest
                   /\ c <> "0"%char.
Proof.
  induction fuel as [|k IH]; intros buf v Hv; [cbn in Hv; lia|].
  rewrite fmtInt_loop_step.
  assert ((0 <? v) = true) as -> by (apply Z.ltb_lt; lia).
  destruct (Z.eq_dec (v / 10) 0) as [Hz|Hnz].
  - rewrite Hz, fmtInt_loop_zero.
    assert (v < 10) by (apply Z.div_small_iff in Hz; lia).
    rewrite Z.mod_small by lia.
    eexists _, _. split; [reflexivity|]. apply digit_char_nonzero. lia.
  - apply IH. rewrite Nat2Z.inj_succ, Z.pow_succ_r in Hv by lia.
    split.
    + assert (0 <= v / 10) by (apply Z.div_pos; lia). lia.
    + apply Z.div_lt_upper_bound; lia.
Qed.

Lemma Duration_String_nonempty (d : Duration) : Duration_String d <> "".
Proof.
  unfold Duration_String. cbv zeta.
  set (u := (if d <? 0 then - d else d) mod 2 ^ 64).
  destruct (u =? 0); [discriminate|].
  destruct (d <? 0); [discriminate|].
  assert (forall s, (1 <= String.length s)%nat -> s <> "") as Hlen.
  { intros [|c s]; cbn; [lia | discriminate]. }
  apply Hlen. destruct (u <? 1000000000).
  - destruct (if u <? 1000 then (0%nat, "ns")
              else if u <? 1000000 then (3%nat, micro +++ "s")
              else (6%nat, "ms")) as [prec unit] eqn:Hunit.
    assert (2 <= String.length unit)%nat as Hu.
    { destruct (u <? 1000); [|destruct (u <? 1000000)];
        injection Hunit as <- <-; cbn; lia. }
    pose proof (fmtFrac_length prec unit u false) as Hf.
    destruct (fmtFrac unit u prec false) as [buf u'].
    pose proof (fmtInt_length buf u'). cbn [fst] in Hf. lia.
  - pose proof (fmtFrac_length 9 "s" u false) as Hf.
    destruct (fmtFrac "s" u 9 false) as [buf u']. cbn [fst String.length] in Hf.
    pose proof (fmtInt_length buf (u' mod 60)) as H1.
    destruct (0 <? u' / 60); [|lia].
    pose proof (fmtInt_length (String "m" (fmtInt buf (u' mod 60)))
                  (u' / 60 mod 60)) as H2.
    cbn [String.length] in H2.
    destruct (0 <? u' / 60 / 60); [|lia].
    pose proof (fmtInt_length
                  (String "h" (fmtInt (String "m" (fmtInt buf (u' mod 60)))
                                 (u' / 60 mod 60))) (u' / 60 / 60)) as H3.
    cbn [String.length] in H3. lia.
Qed.

(** Only the zero duration is written [0s]. *)
Lemma Duration_String_positive (d : Duration) :
  0 < d <= maxDuration -> Duration_String d <> "0s".
Proof.
  intros Hd. unfold maxDuration in Hd.
  change (2 ^ 63 - 1) with 9223372036854775807 in Hd.
  unfold Duration_String. cbv zeta.
  assert ((d <? 0) = false) as -> by (apply Z.ltb_ge; lia).
  change (2 ^ 64) with 18446744073709551616.
  rewrite Z.mod_small by lia.
  assert ((d =? 0) = false) as -> by (apply Z.eqb_neq; lia).
  assert (forall s, (3 <= String.length s)%nat -> s <> "0s") as Hlen.
  { intros s Hs ->. cbn in Hs. lia. }
  destruct (d <? 1000000000) eqn:Hsub.
  - apply Hlen.
    destruct (if d <? 1000 then (0%nat, "ns")
              else if d <? 1000000 then (3%nat, micro +++ "s")
              else (6%nat, "ms")) as [prec unit] eqn:Hunit.
    assert (2 <= String.length unit)%nat as Hu.
    { destruct (d <? 1000); [|destruct (d <? 1000000)];
        injection Hunit as <- <-; cbn; lia. }
    pose proof (fmtFrac_length prec unit d false) as Hf.
    pose proof (fmtFrac_rest prec unit d false) as Hr.
    destruct (fmtFrac unit d prec false) as [buf u']. cbn [fst snd] in Hf, Hr.
    assert (0 <= u').
    { subst u'. apply Z.div_pos; [lia | apply Z.pow_pos_nonneg; lia]. }
    pose proof (fmtInt_longer buf u' ltac:(assumption)). lia.
  - apply Z.ltb_ge in Hsub.
    pose proof (fmtFrac_length 9 "s" d false) as Hf.
    pose proof (fmtFrac_rest 9 "s" d false) as Hr.
    destruct (fmtFrac "s" d 9 false) as [buf u'].
    cbn [fst snd String.length] in Hf, Hr.
    change (10 ^ Z.of_nat 9) with 1000000000 in Hr.
    assert (1 <= u' < 10000000000) as Hu.
    { subst u'. split.
      - apply Z.div_le_lower_bound; lia.
      - apply Z.div_lt_upper_bound; lia. }
    destruct (0 <? u' / 60) eqn:Hmin.
    + apply Z.ltb_lt in Hmin. apply Hlen.
      pose proof (fmtInt_length buf (u' mod 60)) as H1.
      assert (0 <= u' / 60 mod 60) by (apply Z.mod_pos_bound; lia).
      pose proof (fmtInt_longer (String "m" (fmtInt buf (u' mod 60)))
                    (u' / 60 mod 60) ltac:(assumption)) as H2.
      cbn [String.length] in H2.
      destruct (0 <? u' / 60 / 60); [|lia].
      pose proof (fmtInt_length
                    (String "h" (fmtInt (String "m" (fmtInt buf (u' mod 60)))
                                   (u' / 60 mod 60))) (u' / 60 / 60)) as H3.
      cbn [String.length] in H3. lia.
    + apply Z.ltb_ge in Hmin.
      assert (u' < 60).
      { destruct (Z.lt_ge_cases u' 60) as [|Hge]; [assumption|].
        assert (1 <= u' / 60) by (apply Z.div_le_lower_bound; lia). lia. }
      rewrite Z.mod_small by lia. unfold fmtInt.
      assert ((u' =? 0) = false) as -> by (apply Z.eqb_neq; lia).
      destruct (fmtInt_loop_head 20 buf u') as (c & rest & -> & Hc).
      { change (10 ^ Z.of_nat 20) with 100000000000000000000. lia. }
      intros [= Hc0 _]. contradiction.
Qed.

(** ** Errors have a text *)

Lemma exec_error_nonempty `{GoRuntime} (args : list string) (o : Outcome)
    (e : error) :
  exec_error args o = Some e -> e <> "".
Proof.
  unfold exec_error. destruct (failure o); [|discriminate].
  intros [= <-]. discriminate.
Qed.

Lemma first_error_query_nonempty `{GoRuntime} (q : Queries) (e : error) :
  first_error (query_errors q) = Some e -> e <> "".
Proof.
  unfold query_errors. cbn [first_error].
  repeat match goal with
         | |- context [exec_error ?a ?o] =>
             let He := fresh "He" in
             destruct (exec_error a o) eqn:He;
             [intros [= <-]; eapply exec_error_nonempty; exact He|]
         end.
  discriminate.
Qed.

Lemma parseVolts_eq `{GoRuntime} (out : string) :
  parseVolts out
  = let o := TrimSuffix (TrimPrefix out "volt=") "V" in
    match snd (ParseFloat o) with
    | Some err =>
        (0%float,
         Some ("parseVolts: out=" +++ Quote out +++ " stripped=" +++ Quote o
               +++ ": " +++ err))
    | None => (fst (ParseFloat o), None)
    end.
Proof. unfold parseVolts. cbv zeta. now destruct (ParseFloat _) as [v [e|]]. Qed.

Lemma parseTemp_error_nonempty `{GoRuntime} (out : string) (e : error) :
  snd (parseTemp out) = Some e -> e <> "".
Proof.
  rewrite parseTemp_eq. cbv zeta. destruct (snd (ParseFloat _));
    cbn [snd]; [intros [= <-] | ]; discriminate.
Qed.

Lemma parseVolts_error_nonempty `{GoRuntime} (out : string) (e : error) :
  snd (parseVolts out) = Some e -> e <> "".
Proof.
  rewrite parseVolts_eq. cbv zeta. destruct (snd (ParseFloat _));
    cbn [snd]; [intros [= <-] | ]; discriminate.
Qed.

Lemma parseClock_error_nonempty `{GoRuntime} (out : string) (e : error) :
  snd (parseClock out) = Some e -> e <> "".
Proof.
  rewrite parseClock_eq.
  destruct (Split out "=") as [|a [|b [|c l]]]; cbn [snd];
    try (intros [= <-]; discriminate).
  destruct (snd (ParseFloat b)); cbn [snd]; [intros [= <-] | ]; discriminate.
Qed.

Lemma parseThrottleBits_error_nonempty `{GoRuntime} (out : string)
    (e : error) :
  snd (parseThrottleBits out) = Some e -> e <> "".
Proof.
  unfold parseThrottleBits. cbv zeta.
  destruct (ParseUint16 _) as [val [e'|]]; cbn [snd];
    [intros [= <-] | ]; discriminate.
Qed.

Lemma first_parse_failure_nonempty `{GoRuntime} (q : Queries) m raw e :
  first_parse_failure q = Some (m, raw, e) -> e <> "".
Proof.
  unfold first_parse_failure.
  destruct (snd (parseTemp _)) eqn:Ht.
  { intros [= _ _ <-]. eapply parseTemp_error_nonempty; exact Ht. }
  destruct (snd (parseVolts _)) eqn:Hv.
  { intros [= _ _ <-]. eapply parseVolts_error_nonempty; exact Hv. }
  destruct (snd (parseClock _)) eqn:Hc.
  { intros [= _ _ <-]. eapply parseClock_error_nonempty; exact Hc. }
  destruct (snd (parseThrottleBits _)) eqn:Hth; [|discriminate].
  intros [= _ _ <-]. eapply parseThrottleBits_error_nonempty; exact Hth.
Qed.

Lemma first_parse_failure_none `{GoRuntime} (q : Queries) :
  first_parse_failure q = None
  <-> snd (parseTemp (raw_of (q_temp q))) = None
      /\ snd (parseVolts (raw_of (q_volts q))) = None
      /\ snd (parseClock (raw_of (q_clock q))) = None
      /\ snd (parseThrottleBits (raw_of (q_throttle q))) = None.
Proof.
  unfold first_parse_failure.
  destruct (snd (parseTemp _)), (snd (parseVolts _)), (snd (parseClock _)),
    (snd (parseThrottleBits _));
    split; try discriminate; try (intros (? & ? & ? & ?); discriminate); auto.
Qed.

(** ** The readings of a cycle *)

Lemma subMono_positive (t u : Z) :
  u < t -> 0 < subMono t u <= maxDuration.
Proof.
  intros Hlt. unfold subMono, maxDuration, minDuration.
  change (2 ^ 63 - 1) with 9223372036854775807.
  change (- 2 ^ 63) with (-9223372036854775808).
  destruct (Z.ltb_spec 9223372036854775807 (t - u)); [lia|].
  destruct (Z.ltb_spec (t - u) (-9223372036854775808)); lia.
Qed.

Lemma subMono_sign (t u : Z) :
  (0 < subMono t u <-> u < t) /\ (subMono t u = 0 <-> t = u)
  /\ minDuration <= subMono t u <= maxDuration.
Proof.
  unfold subMono, maxDuration, minDuration.
  change (2 ^ 63 - 1) with 9223372036854775807.
  change (- 2 ^ 63) with (-9223372036854775808).
  destruct (Z.ltb_spec 9223372036854775807 (t - u)); [lia|].
  destruct (Z.ltb_spec (t - u) (-9223372036854775808)); lia.
Qed.

(** Of the durations of an [int64], zero alone is written [0s]. *)
Lemma Duration_String_zero (d : Duration) :
  minDuration <= d <= maxDuration -> (Duration_String d = "0s" <-> d = 0).
Proof.
  intros Hd. split; [|intros ->; reflexivity].
  intros Hs. destruct (Z.lt_trichotomy d 0) as [Hneg | [Hz | Hpos]].
  - exfalso. revert Hs. unfold maxDuration, minDuration in Hd.
    change (2 ^ 63 - 1) with 9223372036854775807 in Hd.
    change (- 2 ^ 63) with (-9223372036854775808) in Hd.
    unfold Duration_String. cbv zeta.
    assert ((d <? 0) = true) as -> by (apply Z.ltb_lt; lia).
    change (2 ^ 64) with 18446744073709551616.
    rewrite Z.mod_small by lia.
    assert ((- d =? 0) = false) as -> by (apply Z.eqb_neq; lia).
    discriminate.
  - exact Hz.
  - exfalso. apply (Duration_String_positive d); [lia | exact Hs].
Qed.

(** C1, against the claim as stated: on a clock that does not advance
    during the cycle, the four commands succeed and parse, the reading has
    no error, and its latency is the zero duration, written [0s]. *)
Lemma pollOnce_zero_latency :
  snd (fst (@pollOnce plain_runtime frozen_env default_timeout world0)) = None
  /\ LastError
       (fst (fst (@pollOnce plain_runtime frozen_env default_timeout world0)))
     = ""
  /\ LastPollLatency
       (fst (fst (@pollOnce plain_runtime frozen_env default_timeout world0)))
     = Duration_String 0
  /\ LastPollLatency
       (fst (fst (@pollOnce plain_runtime frozen_env default_timeout world0)))
     = "0s".
Proof. repeat split; vm_compute; reflexivity. Qed.

(** C1, amended: a reading either holds the four parsed measurements and no
    error, or it has an error; it has no error exactly when the four
    commands succeeded and the four parsers accepted their outputs; and
    then its latency is the text of [d], the time elapsed on the clock from
    the reading taken at the start of the cycle ([start]) to the one taken
    by [time.Since(start)], the third of the cycle.  That duration is
    greater than zero exactly when the clock advanced in between, and zero,
    written [0s], exactly when the two readings are the same. *)
Theorem pollOnce_dichotomy `{GoRuntime} (E : Env) (timeout : Duration)
    (w : World) :
  let q := queries E timeout w in
  let s := fst (fst (pollOnce E timeout w)) in
  let d := subMono (clock E (S (S (reads w)))) (clock E (reads w)) in
  ((populated q s /\ LastError s = "") \/ LastError s <> "")
  /\ (LastError s = "" <-> queries_ok q /\ parses_ok q)
  /\ (LastError s = "" ->
      LastPollLatency s = Duration_String d
      /\ (0 < d <-> clock E (reads w) < clock E (S (S (reads w))))
      /\ (d = 0 <-> clock E (S (S (reads w))) = clock E (reads w))
      /\ (LastPollLatency s = "0s" <-> d = 0)
      /\ (LastPollLatency s <> "0s" /\ 0 <= d <-> 0 < d)).
Proof.
  intros q s d. subst s.
  destruct (first_error (query_errors q)) as [e|] eqn:Hq.
  - rewrite (pollOnce_query_failed E timeout w e Hq). cbn [fst LastError].
    pose proof (first_error_query_nonempty q e Hq) as Hne.
    assert (~ queries_ok q) as Hnok.
    { intros Hok. apply first_error_none in Hok. fold q in Hok. congruence. }
    repeat split; try tauto.
  - rewrite (pollOnce_queries_ok E timeout w Hq). fold q.
    destruct (first_parse_failure q) as [[[m raw] e]|] eqn:Hp.
    + cbn [fst LastError parse_failure_reading].
      pose proof (first_parse_failure_nonempty q m raw e Hp) as Hne.
      assert (~ parses_ok q) as Hnok.
      { intros Hok. apply first_parse_failure_none in Hok. congruence. }
      repeat split; try tauto.
    + assert (parses_ok q) as Hpok by (apply first_parse_failure_none, Hp).
      assert (queries_ok q) as Hqok by (apply first_error_none, Hq).
      destruct (parseThrottleBits (raw_of (q_throttle q)))
        as [[[[thHex uv] fc] thr] err] eqn:Hth.
      cbn [fst LastError LastPollLatency]. split; [|split].
      * left. split; [|reflexivity]. unfold populated.
        rewrite Hth. cbn. auto.
      * split; [intros _; split; [exact Hqok | exact Hpok] | reflexivity].
      * intros _.
        destruct (subMono_sign (clock E (S (S (reads w))))
                    (clock E (reads w))) as (Hpos & Hzero & Hrange).
        fold d in Hpos, Hzero, Hrange.
        pose proof (Duration_String_zero d Hrange) as Hs.
        split; [reflexivity|]. split; [exact Hpos|]. split; [exact Hzero|].
        split; [exact Hs|].
        split; [intros [Hn Hd]|intros Hd; split; [|lia]].
        -- assert (d <> 0) by (intros Hz; apply Hn, Hs, Hz). lia.
        -- intros Hz. apply Hs in Hz. lia.
Qed.

(** C1 at the healthy world, whose clock advances by 250 microseconds at
    each reading: no error, and a latency of 500 microseconds. *)
Lemma pollOnce_dichotomy_witness :
  LastPollLatency
    (fst (fst (@pollOnce plain_runtime healthy_env default_timeout world0)))
  = Duration_String 500000
  /\ LastPollLatency
       (fst (fst (@pollOnce plain_runtime healthy_env default_timeout
                    world0)))
     = "500" +++ micro +++ "s"
  /\ 0 < subMono (clock healthy_env 2) (clock healthy_env 0).
Proof.
  destruct (proj2 (proj2 (@pollOnce_dichotomy plain_runtime healthy_env
                            default_timeout world0)))
    as (Hl & Hpos & _).
  - vm_compute. reflexivity.
  - split; [exact Hl|]. split; [vm_compute; reflexivity|].
    apply Hpos. vm_compute. reflexivity.
Defined.

(** C5: when a command failed, the reading has the error of the first
    command that failed, in the order temperature, voltage, throttle, clock;
    its raw fields are the outputs captured, its source is set, its numbers
    are zero and no throttle flag is set. *)
Theorem pollOnce_query_failure `{GoRuntime} (E : Env) (timeout : Duration)
    (w : World) :
  let q := queries E timeout w in
  let s := fst (fst (pollOnce E timeout w)) in
  failure (q_temp q) <> None \/ failure (q_volts q) <> None
  \/ failure (q_throttle q) <> None \/ failure (q_clock q) <> None ->
  first_error (query_errors q) = Some (LastError s)
  /\ snd (fst (pollOnce E timeout w)) = Some (LastError s)
  /\ LastError s <> ""
  /\ RawTemp s = raw_of (q_temp q) /\ RawVolts s = raw_of (q_volts q)
  /\ RawThrottle s = raw_of (q_throttle q) /\ RawClock s = raw_of (q_clock q)
  /\ Source s = "vcgencmd"
  /\ TempC s = 0%float /\ VoltV s = 0%float /\ ClockArmMHz s = 0%float
  /\ ThrottleHex s = "" /\ Undervoltage s = false /\ FreqCapped s = false
  /\ Throttled s = false.
Proof.
  intros q s Hfail. subst s.
  destruct (first_error (query_errors q)) as [e|] eqn:Hq.
  - rewrite (pollOnce_query_failed E timeout w e Hq). cbn.
    pose proof (first_error_query_nonempty q e Hq). repeat split; auto.
  - apply first_error_none in Hq. destruct Hq as (? & ? & ? & ?). tauto.
Qed.

(** C5 where [get_throttled] is killed before it prints. *)
Lemma pollOnce_query_failure_witness :
  let s := fst (fst (@pollOnce plain_runtime throttle_killed_env
                       default_timeout world0)) in
  LastError s
  = "exec failed: vcgencmd get_throttled: signal: killed; output: "
    +++ double_quote +++ double_quote
  /\ RawTemp s = "temp=53.2'C" /\ RawVolts s = "volt=0.8625V"
  /\ Source s = "vcgencmd"
  /\ Undervoltage s = false /\ FreqCapped s = false /\ Throttled s = false.
Proof.
  pose proof (@pollOnce_query_failure plain_runtime throttle_killed_env
                default_timeout world0) as Hc.
  cbv zeta in Hc.
  assert (failure (q_throttle (queries throttle_killed_env default_timeout
                                 world0)) <> None) as Hk by discriminate.
  specialize (Hc (or_intror (or_intror (or_introl Hk)))).
  destruct Hc as (_ & _ & _ & _ & _ & _ & _ & Hsrc & _ & _ & _ & _ & Huv
                  & Hfc & Hthr).
  cbv zeta. repeat split; try assumption; vm_compute; reflexivity.
Defined.

(** C6: when the four commands succeeded, the parsers run in the order
    temperature, voltage, clock, throttle; the reading of a cycle whose
    first failing parser is that of [m] is the error of that parser, its
    time, and the raw output of [m], all other fields zero: nothing of the
    measurements after [m] (nor of those before) is in it. *)
Theorem pollOnce_parse_failure `{GoRuntime} (E : Env) (timeout : Duration)
    (w : World) :
  let q := queries E timeout w in
  let s := fst (fst (pollOnce E timeout w)) in
  queries_ok q ->
  match first_parse_failure q with
  | Some (m, raw, e) =>
      s = parse_failure_reading m raw e (instant (clock E (S (reads w))))
      /\ snd (fst (pollOnce E timeout w)) = Some e
      /\ LastError s = e /\ e <> ""
  | None =>
      snd (fst (pollOnce E timeout w)) = None /\ LastError s = ""
      /\ populated q s
  end.
Proof.
  intros q s Hok. subst s. apply first_error_none in Hok.
  rewrite (pollOnce_queries_ok E timeout w Hok). fold q.
  destruct (first_parse_failure q) as [[[m raw] e]|] eqn:Hp.
  - cbn. repeat split. eapply first_parse_failure_nonempty; exact Hp.
  - unfold populated.
    destruct (parseThrottleBits (raw_of (q_throttle q)))
      as [[[[thHex uv] fc] thr] err]. cbn. repeat split.
Qed.

(** C6 where [measure_temp] prints no temperature: the voltage, the clock
    and the throttle state, though captured, are neither parsed nor kept. *)
Lemma pollOnce_parse_failure_witness :
  let s := fst (fst (@pollOnce plain_runtime garbled_temp_env
                       default_timeout world0)) in
  @first_parse_failure plain_runtime
    (queries garbled_temp_env default_timeout world0)
  = Some (Temperature, RawTemp s, LastError s)
  /\ s = parse_failure_reading Temperature "VCHI initialization failed"
           (LastError s) (instant 251000).
Proof.
  pose proof (@pollOnce_parse_failure plain_runtime garbled_temp_env
                default_timeout world0) as Hc.
  cbv zeta in Hc.
  specialize (Hc (conj eq_refl (conj eq_refl (conj eq_refl eq_refl)))).
  cbv zeta. split; [vm_compute; reflexivity|].
  destruct (@first_parse_failure plain_runtime
              (queries garbled_temp_env default_timeout world0))
    as [[[m raw] e]|] eqn:Hp.
  - destruct Hc as (Hs & _ & He & _). rewrite He. rewrite Hs.
    vm_compute in Hp. injection Hp as <- <- _. reflexivity.
  - vm_compute in Hp. discriminate.
Defined.

(** C8, against the claim as stated: in the world where [measure_temp]
    prints no temperature the cycle fails partway, the output of
    [measure_volts] was captured, and the reading does not have it (nor the
    outputs of the clock and throttle commands). *)
Lemma parse_failure_drops_captured_outputs :
  let q := queries garbled_temp_env default_timeout world0 in
  let s := fst (fst (@pollOnce plain_runtime garbled_temp_env
                       default_timeout world0)) in
  @raw_of plain_runtime (q_volts q) = "volt=0.8625V"
  /\ @raw_of plain_runtime (q_clock q) = "frequency(48)=1500398464"
  /\ @raw_of plain_runtime (q_throttle q) = "throttled=0x50005"
  /\ String.eqb (LastError s) "" = false
  /\ RawTemp s = "VCHI initialization failed"
  /\ RawVolts s = "" /\ RawClock s = "" /\ RawThrottle s = "".
Proof. cbv zeta. repeat split; vm_compute; reflexivity. Qed.

(** C8, amended: a reading of a cycle in which a command failed has the
    four raw outputs as captured; a reading of a cycle in which a parser
    failed has the raw output of the measurement whose parser failed, and
    the three other raw fields empty. *)
Theorem raw_fields_on_failure `{GoRuntime} (E : Env) (timeout : Duration)
    (w : World) :
  let q := queries E timeout w in
  let s := fst (fst (pollOnce E timeout w)) in
  (forall e, first_error (query_errors q) = Some e ->
     RawTemp s = raw_of (q_temp q) /\ RawVolts s = raw_of (q_volts q)
     /\ RawThrottle s = raw_of (q_throttle q)
     /\ RawClock s = raw_of (q_clock q))
  /\ (forall m raw e,
        first_error (query_errors q) = None ->
        first_parse_failure q = Some (m, raw, e) ->
        RawTemp s = match m with Temperature => raw_of (q_temp q) | _ => "" end
        /\ RawVolts s = match m with Voltage => raw_of (q_volts q) | _ => "" end
        /\ RawThrottle s
           = match m with Throttle => raw_of (q_throttle q) | _ => "" end
        /\ RawClock s = match m with Clock => raw_of (q_clock q) | _ => "" end).
Proof.
  intros q s. subst s. split.
  - intros e Hq. rewrite (pollOnce_query_failed E timeout w e Hq). cbn. auto.
  - intros m raw e Hq Hp.
    rewrite (pollOnce_queries_ok E timeout w Hq). fold q. rewrite Hp.
    cbn [fst parse_failure_reading RawTemp RawVolts RawThrottle RawClock].
    unfold first_parse_failure in Hp.
    destruct (snd (parseTemp _)); [injection Hp as <- <- _; auto|].
    destruct (snd (parseVolts _)); [injection Hp as <- <- _; auto|].
    destruct (snd (parseClock _)); [injection Hp as <- <- _; auto|].
    destruct (snd (parseThrottleBits _)); [injection Hp as <- <- _; auto|].
    discriminate.
Qed.

(** The amended C8 in the two failing worlds. *)
Lemma raw_fields_on_failure_witness :
  RawVolts (fst (fst (@pollOnce plain_runtime throttle_killed_env
                        default_timeout world0)))
  = "volt=0.8625V"
  /\ RawVolts (fst (fst (@pollOnce plain_runtime garbled_temp_env
                           default_timeout world0)))
     = "".
Proof.
  split.
  - destruct (proj1 (@raw_fields_on_failure plain_runtime throttle_killed_env
                       default_timeout world0) _ eq_refl)
      as (_ & Hv & _).
    rewrite Hv. vm_compute. reflexivity.
  - destruct (proj2 (@raw_fields_on_failure plain_runtime garbled_temp_env
                       default_timeout world0) Temperature _ _ eq_refl eq_refl)
      as (_ & Hv & _).
    exact Hv.
Defined.

(** C10: a reading of a cycle in which a parser failed has the zero
    timestamp, no source, no latency and one raw field, that of the failing
    measurement; a reading of a cycle in which a command failed has the
    timestamp of a clock reading, the source, a latency and the four raw
    fields. *)
Theorem parse_failure_reading_is_bare `{GoRuntime} (E : Env)
    (timeout : Duration) (w : World) :
  let q := queries E timeout w in
  let s := fst (fst (pollOnce E timeout w)) in
  (forall m raw e,
     queries_ok q -> first_parse_failure q = Some (m, raw, e) ->
     Timestamp s = zeroTime /\ Source s = "" /\ LastPollLatency s = ""
     /\ (RawTemp s, RawVolts s, RawClock s, RawThrottle s)
        = match m with
          | Temperature => (raw_of (q_temp q), "", "", "")
          | Voltage => ("", raw_of (q_volts q), "", "")
          | Clock => ("", "", raw_of (q_clock q), "")
          | Throttle => ("", "", "", raw_of (q_throttle q))
          end
     /\ LastError s = e)
  /\ (forall e,
        first_error (query_errors q) = Some e ->
        Timestamp s = instant (clock E (S (reads w)))
        /\ Source s = "vcgencmd"
        /\ (exists d, LastPollLatency s = Duration_String d)
        /\ LastPollLatency s <> ""
        /\ (RawTemp s, RawVolts s, RawClock s, RawThrottle s)
           = (raw_of (q_temp q), raw_of (q_volts q), raw_of (q_clock q),
              raw_of (q_throttle q))
        /\ LastError s = e).
Proof.
  intros q s. subst s. split.
  - intros m raw e Hok Hp. apply first_error_none in Hok.
    rewrite (pollOnce_queries_ok E timeout w Hok). fold q. rewrite Hp.
    cbn [fst parse_failure_reading Timestamp Source LastPollLatency RawTemp
         RawVolts RawThrottle RawClock LastError].
    repeat split.
    unfold first_parse_failure in Hp.
    destruct (snd (parseTemp _)); [injection Hp as <- <- _; auto|].
    destruct (snd (parseVolts _)); [injection Hp as <- <- _; auto|].
    destruct (snd (parseClock _)); [injection Hp as <- <- _; auto|].
    destruct (snd (parseThrottleBits _)); [injection Hp as <- <- _; auto|].
    discriminate.
  - intros e Hq. rewrite (pollOnce_query_failed E timeout w e Hq).
    cbn [fst Timestamp Source LastPollLatency RawTemp RawVolts RawThrottle
         RawClock LastError].
    repeat split; eauto using Duration_String_nonempty.
Qed.

(** C10 in the two failing worlds. *)
Lemma parse_failure_reading_is_bare_witness :
  let bare := fst (fst (@pollOnce plain_runtime garbled_temp_env
                          default_timeout world0)) in
  let full := fst (fst (@pollOnce plain_runtime throttle_killed_env
                          default_timeout world0)) in
  (Timestamp bare = zeroTime /\ Source bare = "" /\ LastPollLatency bare = "")
  /\ (Timestamp full = instant 251000 /\ Source full = "vcgencmd").
Proof.
  cbv zeta. split.
  - destruct (proj1 (@parse_failure_reading_is_bare plain_runtime
                       garbled_temp_env default_timeout world0)
                Temperature _ _
                (conj eq_refl (conj eq_refl (conj eq_refl eq_refl)))
                eq_refl) as (Ht & Hs & Hl & _).
    auto.
  - destruct (proj2 (@parse_failure_reading_is_bare plain_runtime
                       throttle_killed_env default_timeout world0)
                _ eq_refl) as (Ht & Hs & _).
    split; [exact Ht | exact Hs].
Defined.

(** ** The poller *)

Lemma poller_snoc `{GoRuntime} (E : Env) (timeout : Duration) (n : nat) :
  forall c w,
    poller E timeout (S n) c w
    = poller_tick E timeout (fst (poller E timeout n c w))
        (snd (poller E timeout n c w)).
Proof.
  induction n as [|n IH]; intros c w.
  - cbn [poller]. unfold bind, ret. cbn [fst snd].
    destruct (poller_tick E timeout c w) as [c' w']. reflexivity.
  - change (poller E timeout (S (S n)) c w)
      with (bind (poller_tick E timeout c)
              (fun c' => poller E timeout (S n) c') w).
    change (poller E timeout (S n) c w)
      with (bind (poller_tick E timeout c)
              (fun c' => poller E timeout n c') w).
    unfold bind. destruct (poller_tick E timeout c w) as [c' w'].
    apply IH.
Qed.

Lemma poller_tick_stores `{GoRuntime} (E : Env) (timeout : Duration)
    (c : cache) (w : World) :
  poller_tick E timeout c w
  = ({| state := fst (fst (pollOnce E timeout w)) |},
     snd (pollOnce E timeout w)).
Proof.
  unfold poller_tick, bind, ret, cache_Set.
  now destruct (pollOnce E timeout w) as [[s err] w'].
Qed.

Lemma initial_poll_stores `{GoRuntime} (E : Env) (timeout : Duration)
    (c : cache) (w : World) :
  initial_poll E timeout c w
  = ({| state := fst (fst (pollOnce E timeout w)) |},
     snd (pollOnce E timeout w)).
Proof.
  unfold initial_poll, bind, ret, cache_Set.
  now destruct (pollOnce E timeout w) as [[s [e|]] w'].
Qed.

(** C7: after the initial poll and after every tick the cache holds the
    reading of the cycle just run, whether it failed or not; so after any
    number of ticks the cached error is that of the last cycle: when a
    command of the last cycle failed, the first such failure of that cycle,
    whatever the earlier cycles returned. *)
Theorem cache_holds_latest `{GoRuntime} (E : Env) (timeout : Duration) :
  (forall c w,
     cache_Get (fst (initial_poll E timeout c w))
     = fst (fst (pollOnce E timeout w)))
  /\ (forall c w,
        cache_Get (fst (poller_tick E timeout c w))
        = fst (fst (pollOnce E timeout w)))
  /\ (forall n w,
        let before := main_poller E timeout n w in
        cache_Get (fst (main_poller E timeout (S n) w))
        = fst (fst (pollOnce E timeout (snd before))))
  /\ (forall n w e,
        let before := main_poller E timeout n w in
        first_error (query_errors (queries E timeout (snd before))) = Some e ->
        LastError (cache_Get (fst (main_poller E timeout (S n) w))) = e).
Proof.
  assert (forall n w,
            cache_Get (fst (main_poller E timeout (S n) w))
            = fst (fst (pollOnce E timeout
                          (snd (main_poller E timeout n w))))) as Hlast.
  { intros n w. unfold main_poller, bind.
    destruct (initial_poll E timeout {| state := State_zero |} w) as [c0 w0].
    rewrite poller_snoc, poller_tick_stores. reflexivity. }
  split; [|split; [|split]].
  - intros c w. now rewrite initial_poll_stores.
  - intros c w. now rewrite poller_tick_stores.
  - exact Hlast.
  - intros n w e before Hq. rewrite Hlast. fold before.
    now rewrite (pollOnce_query_failed E timeout (snd before) e Hq).
Qed.

(** C7 in the world where nothing succeeds: after the initial poll and two
    ticks the cached error is the kill of the third cycle, not the exit
    status of the first two. *)
Lemma cache_holds_latest_witness :
  LastError (cache_Get (fst (@main_poller plain_runtime degrading_env
                               default_timeout 2 world0)))
  = "exec failed: vcgencmd measure_temp: signal: killed; output: "
    +++ double_quote +++ double_quote.
Proof.
  apply (proj2 (proj2 (proj2 (@cache_holds_latest plain_runtime degrading_env
                                default_timeout))) 1%nat world0).
  vm_compute. reflexivity.
Defined.

(** ** The cache under its lock *)

Import Locked.

Lemma finish_copy_all (src dst : State) : finish_copy src fields dst = src.
Proof. destruct src, dst. reflexivity. Qed.

Lemma Forall_set_nth {A} (P : A -> Prop) (i : nat) (x : A) (l : list A) :
  Forall P l -> P x -> Forall P (set_nth i x l).
Proof.
  intros Hl Hx. revert i. induction Hl as [|y r Hy Hr IH]; intros i.
  - destruct i; constructor.
  - destruct i; cbn [set_nth]; constructor; auto.
Qed.

Lemma nth_error_set_nth {A} (i : nat) (x y : A) (l : list A) :
  nth_error l i = Some y -> nth_error (set_nth i x l) i = Some x.
Proof.
  revert i. induction l as [|z r IH]; intros [|i] Hi; try discriminate.
  - reflexivity.
  - cbn [set_nth nth_error] in *. now apply IH.
Qed.

Lemma Forall_nth_error {A} (P : A -> Prop) (l : list A) (i : nat) (y : A) :
  Forall P l -> nth_error l i = Some y -> P y.
Proof.
  intros Hl Hi. apply nth_error_In in Hi.
  rewrite Forall_forall in Hl. now apply Hl.
Qed.

Lemma count_loading_set_nth (i : nat) (x y : getter) (l : list getter) :
  nth_error l i = Some y ->
  (count_loading (set_nth i x l) + (if loading y then 1 else 0)
   = count_loading l + (if loading x then 1 else 0))%nat.
Proof.
  unfold count_loading.
  revert i. induction l as [|z r IH]; intros [|i] Hi; try discriminate.
  - injection Hi as ->. cbn [set_nth filter].
    destruct (loading x), (loading y); cbn [List.length]; lia.
  - cbn [set_nth filter nth_error] in *. specialize (IH i Hi).
    destruct (loading z); cbn [List.length]; lia.
Qed.

Lemma no_loading (l : list getter) :
  count_loading l = 0%nat -> Forall (fun g => loading g = false) l.
Proof.
  unfold count_loading. induction l as [|g r IH]; intros Hc; [constructor|].
  cbn [filter] in Hc. destruct (loading g) eqn:Hg; [discriminate|].
  constructor; auto.
Qed.

Lemma getter_ok_idle (m m' : State) (pub pub' : list State) (l : list getter) :
  count_loading l = 0%nat -> incl pub pub' ->
  Forall (getter_ok m pub) l -> Forall (getter_ok m' pub') l.
Proof.
  intros Hc Hincl Hl. apply no_loading in Hc.
  rewrite Forall_forall in *. intros g Hg.
  specialize (Hc g Hg). specialize (Hl g Hg).
  destruct g; cbn in *; [exact I | discriminate | auto].
Qed.

Lemma start_invariant (s0 : State) (todo : list State) (n : nat) :
  invariant s0 todo (start s0 todo n).
Proof.
  constructor; cbn.
  - reflexivity.
  - discriminate.
  - auto.
  - unfold count_loading. induction n as [|n IH]; [reflexivity | exact IH].
  - induction n as [|n IH]; constructor; [exact I | exact IH].
Qed.

Lemma hd_In {A} (d : A) (l : list A) : l <> [] -> In (hd d l) l.
Proof. destruct l; [congruence | intros _; now left]. Qed.

(** Every step keeps the invariant. *)
Lemma step_invariant (s0 : State) (todo : list State) (a : action)
    (c c' : system) :
  invariant s0 todo c -> step a c = Some c' -> invariant s0 todo c'.
Proof.
  intros [Hh Hp Hw Hr Hg] Hstep. destruct a as [| | |i|i|i]; cbn [step] in Hstep.
  - (* SetLock *)
    destruct (poller_at c) eqn:Hpc; [|discriminate].
    destruct (pending c) as [|s rest] eqn:Hpend; [discriminate|].
    destruct (negb (writer (mu c)) && Nat.eqb (readers (mu c)) 0) eqn:Hfree;
      [|discriminate].
    apply andb_prop in Hfree as [_ Hzero]. apply Nat.eqb_eq in Hzero.
    injection Hstep as <-. constructor;
      cbn [mu slot poller_at pending handlers published readers writer
           in_flight].
    + exact Hh.
    + exact Hp.
    + repeat split. apply finish_copy_all.
    + now rewrite <- Hr.
    + exact Hg.
  - (* SetStore *)
    destruct (poller_at c) as [|s [|f fs]] eqn:Hpc; try discriminate.
    injection Hstep as <-. destruct Hw as (Hwr & Hrd & Hfin).
    constructor;
      cbn [mu slot poller_at pending handlers published readers writer
           in_flight].
    + exact Hh.
    + exact Hp.
    + auto.
    + exact Hr.
    + eapply getter_ok_idle; [|apply incl_refl|exact Hg]. now rewrite <- Hr.
  - (* SetUnlock *)
    destruct (poller_at c) as [|s [|f fs]] eqn:Hpc; try discriminate.
    injection Hstep as <-. destruct Hw as (Hwr & Hrd & Hfin).
    cbn in Hfin. constructor;
      cbn [mu slot poller_at pending handlers published readers writer
           in_flight].
    + cbn [rev app]. rewrite <- List.app_assoc. exact Hh.
    + discriminate.
    + auto.
    + exact Hr.
    + eapply getter_ok_idle; [|apply incl_tl, incl_refl|exact Hg].
      now rewrite <- Hr.
  - (* GetRLock *)
    destruct (nth_error (handlers c) i) as [g|] eqn:Hi; [|discriminate].
    assert (loading g = false
            /\ (if negb (writer (mu c))
                then Some {| mu := {| writer := false;
                                      readers := S (readers (mu c)) |};
                             slot := slot c;
                             poller_at := poller_at c;
                             pending := pending c;
                             handlers :=
                               set_nth i (GetLoading State_zero fields)
                                 (handlers c);
                             published := published c |}
                else None) = Some c') as [Hidle Hstep'].
    { destruct g; try discriminate; auto. }
    clear Hstep. destruct (writer (mu c)) eqn:Hwr; [discriminate|].
    injection Hstep' as <-.
    destruct (poller_at c) as [|s fs] eqn:Hpc;
      [|destruct Hw as (Hw & _); discriminate].
    pose proof (count_loading_set_nth i (GetLoading State_zero fields) g
                  (handlers c) Hi) as Hcount.
    rewrite Hidle in Hcount. cbn [loading] in Hcount.
    constructor;
      cbn [mu slot poller_at pending handlers published readers writer
           in_flight].
    + exact Hh.
    + exact Hp.
    + split; [reflexivity | apply Hw].
    + lia.
    + apply Forall_set_nth; [exact Hg|]. apply finish_copy_all.
  - (* GetLoad *)
    destruct (nth_error (handlers c) i) as [[|buf [|f fs]|v]|] eqn:Hi;
      try discriminate.
    injection Hstep as <-.
    pose proof (count_loading_set_nth i
                  (GetLoading (copy_field f (slot c) buf) fs) _
                  (handlers c) Hi) as Hcount.
    cbn [loading] in Hcount.
    pose proof (Forall_nth_error _ _ _ _ Hg Hi) as Hbuf.
    constructor;
      cbn [mu slot poller_at pending handlers published readers writer
           in_flight].
    + exact Hh.
    + exact Hp.
    + exact Hw.
    + lia.
    + apply Forall_set_nth; [exact Hg | exact Hbuf].
  - (* GetRUnlock *)
    destruct (nth_error (handlers c) i) as [[|buf [|f fs]|v]|] eqn:Hi;
      try discriminate.
    injection Hstep as <-.
    pose proof (count_loading_set_nth i (GetReturned buf) _ (handlers c) Hi)
      as Hcount.
    cbn [loading] in Hcount.
    pose proof (Forall_nth_error _ _ _ _ Hg Hi) as Hbuf. cbn in Hbuf.
    destruct (poller_at c) as [|s fs] eqn:Hpc;
      [|destruct Hw as (_ & Hzero & _); lia].
    destruct Hw as (Hwr & Hslot).
    constructor;
      cbn [mu slot poller_at pending handlers published readers writer
           in_flight].
    + exact Hh.
    + exact Hp.
    + auto.
    + lia.
    + apply Forall_set_nth; [exact Hg|]. cbn.
      rewrite Hbuf, Hslot. now apply hd_In.
Qed.

Lemma run_invariant (s0 : State) (todo : list State) (sched : list action) :
  forall c c',
    invariant s0 todo c -> run_schedule sched c = Some c' ->
    invariant s0 todo c'.
Proof.
  induction sched as [|a rest IH]; intros c c' Hinv Hrun; cbn in Hrun.
  - now injection Hrun as <-.
  - destruct (step a c) as [c1|] eqn:Hstep; [|discriminate].
    eapply IH; [|exact Hrun]. eapply step_invariant; eassumption.
Qed.

(** C9: in every system a schedule reaches from the start, whatever the
    interleaving of the steps of the poller and of the handlers, a reading
    that [Get] has returned is one of the readings published by a completed
    [Set] (the initial one included), hence one of the whole readings the
    poller was given and never a mix of the fields of two; when a [Get]
    returns, its result is the most recently published reading; and when a
    [Set] returns, the slot is the reading it was given. *)
Theorem no_torn_read (s0 : State) (todo : list State) (n : nat)
    (sched : list action) (c : system) :
  run_schedule sched (start s0 todo n) = Some c ->
  (forall i v,
     nth_error (handlers c) i = Some (GetReturned v) ->
     In v (published c) /\ In v (s0 :: todo))
  /\ (forall i c',
        step (GetRUnlock i) c = Some c' ->
        nth_error (handlers c') i
        = Some (GetReturned (hd s0 (published c)))
        /\ published c' = published c)
  /\ (forall c',
        step SetUnlock c = Some c' ->
        published c' = slot c' :: published c /\ In (slot c') (s0 :: todo)).
Proof.
  intros Hrun.
  pose proof (run_invariant s0 todo sched _ _ (start_invariant s0 todo n) Hrun)
    as Hinv.
  assert (forall c1 v, invariant s0 todo c1 -> In v (published c1) ->
                       In v (s0 :: todo)) as Hknown.
  { intros c1 v [Hh _ _ _ _] Hv. rewrite <- Hh.
    apply in_or_app. left. now apply in_rev in Hv. }
  split; [|split].
  - intros i v Hi. destruct Hinv as [Hh Hp Hw Hr Hg].
    pose proof (Forall_nth_error _ _ _ _ Hg Hi) as Hv. cbn in Hv.
    split; [exact Hv|]. eapply Hknown; [|exact Hv]. now constructor.
  - intros i c' Hstep.
    pose proof (step_invariant _ _ _ _ _ Hinv Hstep) as Hinv'.
    destruct Hinv as [Hh Hp Hw Hr Hg]. cbn [step] in Hstep.
    destruct (nth_error (handlers c) i) as [[|buf [|f fs]|v]|] eqn:Hi;
      try discriminate.
    injection Hstep as <-. cbn [handlers published]. split; [|reflexivity].
    rewrite (nth_error_set_nth _ _ _ _ Hi). do 2 f_equal.
    pose proof (Forall_nth_error _ _ _ _ Hg Hi) as Hbuf. cbn in Hbuf.
    pose proof (count_loading_set_nth i (GetReturned buf) _ (handlers c) Hi)
      as Hcount.
    cbn [loading] in Hcount.
    destruct (poller_at c) as [|s fs];
      [|destruct Hw as (_ & Hzero & _); lia].
    destruct Hw as (_ & Hslot). congruence.
  - intros c' Hstep.
    pose proof (step_invariant _ _ _ _ _ Hinv Hstep) as Hinv'.
    destruct Hinv as [Hh Hp Hw Hr Hg]. cbn [step] in Hstep.
    destruct (poller_at c) as [|s [|f fs]] eqn:Hpc; try discriminate.
    injection Hstep as <-. destruct Hw as (_ & _ & Hfin). cbn in Hfin.
    cbn [published slot] in *. rewrite Hfin. split; [reflexivity|].
    eapply Hknown; [exact Hinv'|]. cbn [published]. now left.
Qed.

(** C9 on a schedule with two handlers: the first loads before the poller
    stores the second reading and returns the first reading; the second
    loads after and returns the second. *)
Lemma no_torn_read_witness :
  exists c,
    run_schedule example_schedule
      (start (reading 1 "first") [reading 2 "second"] 2)
    = Some c
    /\ nth_error (handlers c) 0 = Some (GetReturned (reading 1 "first"))
    /\ nth_error (handlers c) 1 = Some (GetReturned (reading 2 "second"))
    /\ In (reading 2 "second") (published c).
Proof.
  eexists. split; [vm_compute; reflexivity|].
  split; [vm_compute; reflexivity|]. split; [vm_compute; reflexivity|].
  refine (proj1 (proj1 (no_torn_read (reading 1 "first")
                          [reading 2 "second"] 2 example_schedule _ _)
                   1%nat (reading 2 "second") _)).
  - vm_compute. reflexivity.
  - vm_compute. reflexivity.
Defined.

(** * More of the agent *)

(** ** parseVolts *)

(** X1: [parseVolts] removes the prefix [volt=] and the suffix [V] where
    the input has them and returns what [ParseFloat] makes of the rest: it
    succeeds exactly when [ParseFloat] accepts the rest; on [volt=<d>V] it
    returns [ParseFloat(<d>)], which for a decimal number [n / 10^k] is the
    binary64 nearest to it, and it fails when that is an infinity; and a
    failure returns the value zero with a non-empty error. *)
Theorem parseVolts_spec `{GoRuntime} :
  (forall out v,
     parseVolts out = (v, None)
     <-> ParseFloat (TrimSuffix (TrimPrefix out "volt=") "V") = (v, None))
  /\ (forall d v,
        parseVolts ("volt=" +++ d +++ "V") = (v, None)
        <-> ParseFloat d = (v, None))
  /\ (forall d neg n k,
        decimal_number d = Some (neg, n, k) ->
        match f64_of_dec neg n (- k) with
        | S754_infinity _ =>
            exists e, parseVolts ("volt=" +++ d +++ "V") = (0%float, Some e)
        | r => parseVolts ("volt=" +++ d +++ "V") = (SF2Prim r, None)
        end)
  /\ (forall out e,
        snd (parseVolts out) = Some e ->
        fst (parseVolts out) = 0%float /\ e <> "").
Proof.
  assert (forall out v,
     parseVolts out = (v, None)
     <-> ParseFloat (TrimSuffix (TrimPrefix out "volt=") "V") = (v, None))
    as Hiff.
  { intros out v. rewrite parseVolts_eq. cbv zeta.
    destruct (ParseFloat _) as [x [e|]]; cbn [fst snd];
      split; intros Heq; try discriminate; congruence. }
  assert (forall d, TrimSuffix (TrimPrefix ("volt=" +++ d +++ "V") "volt=") "V"
                    = d) as Hstrip.
  { intros d. now rewrite TrimPrefix_app, TrimSuffix_app. }
  split; [exact Hiff|]. split; [|split].
  - intros d v. rewrite Hiff, Hstrip. reflexivity.
  - intros d neg n k Hd. rewrite parseVolts_eq. cbv zeta. rewrite Hstrip.
    rewrite (ParseFloat_decimal _ _ _ _ Hd). cbn [fst snd].
    destruct (f64_of_dec neg n (- k)); try reflexivity. eexists; reflexivity.
  - intros out e He. split; [|eapply parseVolts_error_nonempty; exact He].
    rewrite parseVolts_eq in *. cbv zeta in *.
    destruct (snd (ParseFloat _)); [reflexivity | discriminate].
Qed.

(** ** What every cycle does *)

Lemma pollOnce_world `{GoRuntime} (E : Env) (timeout : Duration) (w : World) :
  let q := queries E timeout w in
  snd (pollOnce E timeout w)
  = {| reads :=
         match first_error (query_errors q), first_parse_failure q with
         | Some _, _ => S (S (S (S (reads w))))
         | None, Some _ => S (S (reads w))
         | None, None => S (S (S (reads w)))
         end;
       execs := S (S (S (S (execs w)))) |}.
Proof.
  intros q. destruct (first_error (query_errors q)) as [e|] eqn:Hq.
  - now rewrite (pollOnce_query_failed E timeout w e Hq).
  - rewrite (pollOnce_queries_ok E timeout w Hq). fold q.
    destruct (first_parse_failure q) as [[[m raw] e]|]; [reflexivity|].
    now destruct (parseThrottleBits (raw_of (q_throttle q)))
      as [[[[thHex uv] fc] thr] err].
Qed.

(** X2: every cycle calls [run] four times, whether a call returns an
    error or not: an error of [measure_temp] does not spare the three other
    calls (when the deadline of the shared context has passed they start no
    process and return its error).  In its own body the cycle calls
    [time.Now] or [time.Since] four times when a call of [run] failed, twice
    when a parser failed and three times otherwise; the reading that
    [context.WithTimeout] takes for the deadline is not among them. *)
Theorem pollOnce_calls_run_four_times `{GoRuntime} (E : Env)
    (timeout : Duration) (w : World) :
  let q := queries E timeout w in
  let w' := snd (pollOnce E timeout w) in
  execs w' = (4 + execs w)%nat
  /\ reads w'
     = match first_error (query_errors q), first_parse_failure q with
       | Some _, _ => (4 + reads w)%nat
       | None, Some _ => (2 + reads w)%nat
       | None, None => (3 + reads w)%nat
       end.
Proof.
  intros q w'. subst w'. rewrite pollOnce_world. fold q. cbn [execs reads].
  split; [reflexivity|].
  destruct (first_error (query_errors q)), (first_parse_failure q);
    reflexivity.
Qed.

Lemma pollOnce_result_cases `{GoRuntime} (E : Env) (timeout : Duration)
    (w : World) :
  let s := fst (fst (pollOnce E timeout w)) in
  let err := snd (fst (pollOnce E timeout w)) in
  (err = None /\ LastError s = "" /\ LastErrorAt s = zeroTime)
  \/ (exists e t, err = Some e /\ LastError s = e /\ e <> ""
                  /\ LastErrorAt s = instant t).
Proof.
  intros s err. subst s err.
  destruct (first_error (query_errors (queries E timeout w))) as [e|] eqn:Hq.
  - rewrite (pollOnce_query_failed E timeout w e Hq). right.
    exists e. eexists. repeat split.
    eapply first_error_query_nonempty; exact Hq.
  - rewrite (pollOnce_queries_ok E timeout w Hq).
    destruct (first_parse_failure (queries E timeout w))
      as [[[m raw] e]|] eqn:Hp.
    + right. exists e. eexists. repeat split.
      eapply first_parse_failure_nonempty; exact Hp.
    + left. now destruct (parseThrottleBits _) as [[[[thHex uv] fc] thr] err].
Qed.

(** X3: the error [pollOnce] returns and the reading it returns agree: the
    error is nil exactly when [LastError] is empty, a non-nil error has the
    text of [LastError], and [LastErrorAt] is a clock reading exactly when
    there is an error. *)
Theorem pollOnce_error_agrees `{GoRuntime} (E : Env) (timeout : Duration)
    (w : World) :
  let s := fst (fst (pollOnce E timeout w)) in
  let err := snd (fst (pollOnce E timeout w)) in
  (err = None <-> LastError s = "")
  /\ (forall e, err = Some e -> LastError s = e)
  /\ (LastErrorAt s = zeroTime <-> LastError s = "").
Proof.
  intros s err.
  destruct (pollOnce_result_cases E timeout w)
    as [(He & Hl & Hat) | (e & t & He & Hl & Hne & Hat)];
    fold s err in He, Hl, Hat; rewrite He, Hl, Hat.
  - repeat split; intros; try reflexivity; discriminate.
  - repeat split; try (intros; discriminate); try congruence.
Qed.

Lemma parseThrottleBits_cases `{GoRuntime} (out : string) :
  let hex := TrimPrefix out "throttled=" in
  match hex_uint64 (TrimPrefix hex "0x") with
  | Some val =>
      parseThrottleBits out
      = (hex, Z.testbit val 0, Z.testbit val 1, Z.testbit val 2, None)
  | None =>
      exists e, parseThrottleBits out = (hex, false, false, false, Some e)
  end.
Proof.
  intros hex.
  assert ((if HasPrefix out "throttled=" then TrimPrefix out "throttled="
           else out) = hex) as Hhex.
  { unfold hex, TrimPrefix. now destruct (HasPrefix out "throttled="). }
  unfold parseThrottleBits. cbv zeta. rewrite Hhex.
  pose proof (ParseUint16_spec (TrimPrefix hex "0x")) as Hp.
  destruct (hex_uint64 (TrimPrefix hex "0x")) as [val|].
  - rewrite Hp. now rewrite !mask_test_bit by lia.
  - destruct Hp as (n & e & ->). eexists; reflexivity.
Qed.

(** X4: a reading without error can be checked against itself: its
    numbers are what the parsers return for its own raw fields, its
    [ThrottleHex] is [RawThrottle] without [throttled=], a hexadecimal
    [uint64] after an optional [0x], and its three flags are the bits 0, 1
    and 2 of that number; its source and timestamp are set. *)
Theorem healthy_reading_is_consistent `{GoRuntime} (E : Env)
    (timeout : Duration) (w : World) :
  let s := fst (fst (pollOnce E timeout w)) in
  LastError s = "" ->
  TempC s = fst (parseTemp (RawTemp s))
  /\ VoltV s = fst (parseVolts (RawVolts s))
  /\ ClockArmMHz s = fst (parseClock (RawClock s))
  /\ ThrottleHex s = TrimPrefix (RawThrottle s) "throttled="
  /\ (exists val,
        hex_uint64 (TrimPrefix (ThrottleHex s) "0x") = Some val
        /\ Undervoltage s = Z.testbit val 0
        /\ FreqCapped s = Z.testbit val 1
        /\ Throttled s = Z.testbit val 2)
  /\ Source s = "vcgencmd"
  /\ Timestamp s = instant (clock E (S (reads w))).
Proof.
  intros s Hok. subst s.
  destruct (first_error (query_errors (queries E timeout w))) as [e|] eqn:Hq.
  { rewrite (pollOnce_query_failed E timeout w e Hq) in Hok. cbn in Hok.
    apply first_error_query_nonempty in Hq. contradiction. }
  rewrite (pollOnce_queries_ok E timeout w Hq) in *.
  set (q := queries E timeout w) in *.
  destruct (first_parse_failure q) as [[[m raw] e]|] eqn:Hp.
  { cbn in Hok. apply first_parse_failure_nonempty in Hp. contradiction. }
  apply first_parse_failure_none in Hp as (_ & _ & _ & Hth).
  pose proof (parseThrottleBits_cases (raw_of (q_throttle q))) as Hcases.
  cbv zeta in Hcases.
  destruct (hex_uint64 _) as [val|] eqn:Hval.
  - rewrite Hcases.
    cbn [fst TempC VoltV ClockArmMHz ThrottleHex RawTemp RawVolts
         RawThrottle RawClock Undervoltage FreqCapped Throttled Source
         Timestamp].
    repeat split. exists val. auto.
  - destruct Hcases as (e & He). rewrite He in Hth. discriminate.
Qed.

(** X4 in the healthy world: the flags of 0x50005. *)
Lemma healthy_reading_is_consistent_witness :
  let s := fst (fst (@pollOnce plain_runtime healthy_env default_timeout
                       world0)) in
  ThrottleHex s = "0x50005"
  /\ exists val,
       hex_uint64 (TrimPrefix (ThrottleHex s) "0x") = Some val
       /\ Undervoltage s = Z.testbit val 0
       /\ FreqCapped s = Z.testbit val 1
       /\ Throttled s = Z.testbit val 2.
Proof.
  cbv zeta. split; [vm_compute; reflexivity|].
  apply (@healthy_reading_is_consistent plain_runtime healthy_env
           default_timeout world0).
  vm_compute. reflexivity.
Defined.

(** ** The poller, counted *)

Lemma poller_execs `{GoRuntime} (E : Env) (timeout : Duration) (n : nat) :
  forall c w,
    execs (snd (poller E timeout n c w)) = (4 * n + execs w)%nat.
Proof.
  induction n as [|n IH]; intros c w.
  - cbn. reflexivity.
  - rewrite poller_snoc, poller_tick_stores. cbn [snd].
    rewrite pollOnce_world. cbn [execs]. rewrite IH. lia.
Qed.

(** X5: after the initial poll and [n] ticks the agent has called [run]
    four times per cycle, [4 * (n + 1)] times in all, whatever the calls
    returned and whether or not a process was started. *)
Theorem main_poller_calls_run_four_per_cycle `{GoRuntime} (E : Env)
    (timeout : Duration) (n : nat) (w : World) :
  execs (snd (main_poller E timeout n w)) = (4 * (n + 1) + execs w)%nat.
Proof.
  unfold main_poller, bind.
  pose proof (initial_poll_stores E timeout {| state := State_zero |} w) as Hi.
  destruct (initial_poll E timeout {| state := State_zero |} w) as [c0 w0].
  injection Hi as _ Hw0. rewrite poller_execs, Hw0, pollOnce_world.
  cbn [execs]. lia.
Qed.

(** ** The throttle flags look at three bits only *)

(** X6: two outputs that [parseThrottleBits] accepts give the same three
    flags whenever their values agree modulo 8: the bits 3 and above, among
    them the bits 16 to 19 in which the firmware records what has occurred
    since boot, never change a flag. *)
Theorem parseThrottleBits_low_bits_only `{GoRuntime} (out out' : string)
    (val val' : Z) :
  hex_uint64 (TrimPrefix (TrimPrefix out "throttled=") "0x") = Some val ->
  hex_uint64 (TrimPrefix (TrimPrefix out' "throttled=") "0x") = Some val' ->
  val mod 8 = val' mod 8 ->
  let '(_, uv, fc, thr, _) := parseThrottleBits out in
  let '(_, uv', fc', thr', _) := parseThrottleBits out' in
  uv = uv' /\ fc = fc' /\ thr = thr'.
Proof.
  intros Hv Hv' Hmod.
  pose proof (parseThrottleBits_cases out) as Hc.
  pose proof (parseThrottleBits_cases out') as Hc'.
  cbv zeta in Hc, Hc'. rewrite Hv in Hc. rewrite Hv' in Hc'.
  rewrite Hc, Hc'.
  assert (forall k, 0 <= k < 3 -> Z.testbit val k = Z.testbit val' k) as Hbit.
  { intros k Hk.
    rewrite <- (Z.mod_pow2_bits_low val 3 k) by lia.
    rewrite <- (Z.mod_pow2_bits_low val' 3 k) by lia.
    change (2 ^ 3) with 8. now rewrite Hmod. }
  repeat split; apply Hbit; lia.
Qed.

(** X6 at 0x50005 and 0x5. *)
Lemma parseThrottleBits_low_bits_only_witness :
  let '(_, uv, fc, thr, _) :=
    @parseThrottleBits plain_runtime "throttled=0x50005" in
  let '(_, uv', fc', thr', _) := @parseThrottleBits plain_runtime "0x5" in
  uv = uv' /\ fc = fc' /\ thr = thr'.
Proof.
  apply (@parseThrottleBits_low_bits_only plain_runtime "throttled=0x50005"
           "0x5" 327685 5); reflexivity.
Defined.

(** ** More on the cache under its lock *)

Lemma reachable_invariant (s0 : State) (todo : list State) (n : nat)
    (sched : list action) (c : system) :
  run_schedule sched (start s0 todo n) = Some c -> invariant s0 todo c.
Proof. apply run_invariant, start_invariant. Qed.

Lemma loading_counts (l : list getter) (i : nat) (g : getter) :
  nth_error l i = Some g -> loading g = true -> (0 < count_loading l)%nat.
Proof.
  unfold count_loading. revert i.
  induction l as [|h r IH]; intros [|i] Hi Hg; try discriminate.
  - injection Hi as ->. cbn [filter]. rewrite Hg. cbn. lia.
  - cbn [filter nth_error] in *. specialize (IH i Hi Hg).
    destruct (loading h); cbn [List.length]; lia.
Qed.

(** X7: the lock keeps the poller and the handlers apart.  In every system
    a schedule reaches, while the poller stores no handler is loading; while
    a handler is loading the poller is outside [Set] and the slot is the
    last published reading; the writer flag of the lock is set exactly while
    the poller stores, and its reader count is the number of handlers that
    are loading. *)
Theorem lock_keeps_apart (s0 : State) (todo : list State) (n : nat)
    (sched : list action) (c : system) :
  run_schedule sched (start s0 todo n) = Some c ->
  (forall s fs i g,
     poller_at c = SetStoring s fs -> nth_error (handlers c) i = Some g ->
     loading g = false)
  /\ (forall i buf fs,
        nth_error (handlers c) i = Some (GetLoading buf fs) ->
        poller_at c = SetIdle /\ slot c = hd s0 (published c))
  /\ (writer (mu c) = true <-> exists s fs, poller_at c = SetStoring s fs)
  /\ readers (mu c) = count_loading (handlers c).
Proof.
  intros Hrun. destruct (reachable_invariant _ _ _ _ _ Hrun)
    as [Hh Hp Hw Hr Hg].
  split; [|split; [|split]].
  - intros s fs i g Hpc Hi. rewrite Hpc in Hw. destruct Hw as (_ & Hz & _).
    destruct (loading g) eqn:Hl; [|reflexivity].
    pose proof (loading_counts _ _ _ Hi Hl). lia.
  - intros i buf fs Hi.
    pose proof (loading_counts _ _ _ Hi eq_refl) as Hc.
    destruct (poller_at c) as [|s fs'].
    + split; [reflexivity | apply Hw].
    + destruct Hw as (_ & Hz & _). lia.
  - destruct (poller_at c) as [|s fs].
    + destruct Hw as (Hwr & _). rewrite Hwr.
      split; [discriminate | intros (s & fs & Hs); discriminate].
    + destruct Hw as (Hwr & _). rewrite Hwr. split; eauto.
  - exact Hr.
Qed.

(** X7 after the example schedule: nobody holds the lock at its end. *)
Lemma lock_keeps_apart_witness :
  exists c,
    run_schedule example_schedule
      (start (reading 1 "first") [reading 2 "second"] 2) = Some c
    /\ readers (mu c) = count_loading (handlers c).
Proof.
  eexists. split; [vm_compute; reflexivity|].
  refine (proj2 (proj2 (proj2 (lock_keeps_apart (reading 1 "first")
                                 [reading 2 "second"] 2 example_schedule
                                 _ _)))).
  vm_compute. reflexivity.
Defined.

Lemma run_schedule_app (a b : list action) (c : system) :
  run_schedule (a ++ b) c
  = match run_schedule a c with
    | Some c' => run_schedule b c'
    | None => None
    end.
Proof.
  revert c. induction a as [|x a IH]; intros c; cbn; [reflexivity|].
  destruct (step x c); [apply IH | reflexivity].
Qed.

Lemma set_nth_twice {A} (i : nat) (x y : A) (l : list A) :
  set_nth i x (set_nth i y l) = set_nth i x l.
Proof.
  revert i. induction l as [|z r IH]; intros [|i]; cbn; try reflexivity.
  now rewrite IH.
Qed.

(** The stores of a [Set]: they end with the slot as the copy leaves it. *)
Lemma run_stores (s : State) (todo : list field) :
  forall c,
    poller_at c = SetStoring s todo ->
    run_schedule (repeat SetStore (List.length todo)) c
    = Some {| mu := mu c;
              slot := finish_copy s todo (slot c);
              poller_at := SetStoring s [];
              pending := pending c;
              handlers := handlers c;
              published := published c |}.
Proof.
  induction todo as [|f fs IH]; intros c Hpc.
  - cbn. rewrite <- Hpc. now destruct c.
  - cbn [List.length repeat run_schedule step]. rewrite Hpc.
    rewrite IH by reflexivity. reflexivity.
Qed.

(** The loads of a [Get]: they end with the result as the copy leaves it. *)
Lemma run_loads (i : nat) (todo : list field) :
  forall c buf,
    nth_error (handlers c) i = Some (GetLoading buf todo) ->
    run_schedule (repeat (GetLoad i) (List.length todo)) c
    = Some {| mu := mu c;
              slot := slot c;
              poller_at := poller_at c;
              pending := pending c;
              handlers :=
                set_nth i (GetLoading (finish_copy (slot c) todo buf) [])
                  (handlers c);
              published := published c |}.
Proof.
  induction todo as [|f fs IH]; intros c buf Hi.
  - cbn. f_equal. destruct c as [m sl p pe h pu]. cbn in *. f_equal.
    revert i Hi. induction h as [|g r IHh]; intros [|i] Hi; try discriminate.
    + now injection Hi as ->.
    + cbn in *. f_equal. now apply IHh.
  - cbn [List.length repeat run_schedule step]. rewrite Hi.
    erewrite IH by (cbn [handlers]; eapply nth_error_set_nth; exact Hi).
    cbn [mu slot poller_at pending handlers published].
    now rewrite set_nth_twice.
Qed.

(** X9: a whole [Set] followed by a whole [Get] returns what was set.  From
    every system a schedule reaches in which the poller is outside [Set]
    with a reading [s] to store and no handler holds the lock, the steps of
    [Set] and then of [Get] by a handler [i] all go through, and they end
    with [s] returned to the handler, [s] in the slot and as the last
    published reading, and the lock free. *)
Theorem get_after_set (s0 : State) (todo : list State) (n : nat)
    (sched : list action) (c : system) (s : State) (rest : list State)
    (i : nat) (g : getter) :
  run_schedule sched (start s0 todo n) = Some c ->
  poller_at c = SetIdle -> pending c = s :: rest ->
  readers (mu c) = 0%nat ->
  nth_error (handlers c) i = Some g ->
  exists c',
    run_schedule (Set_steps ++ Get_steps i) c = Some c'
    /\ nth_error (handlers c') i = Some (GetReturned s)
    /\ slot c' = s /\ hd s0 (published c') = s
    /\ mu c' = {| writer := false; readers := 0 |}
    /\ pending c' = rest.
Proof.
  intros Hrun Hpc Hpend Hzero Hi.
  destruct (reachable_invariant _ _ _ _ _ Hrun) as [Hh Hp Hw Hr Hg].
  rewrite Hpc in Hw. destruct Hw as (Hwr & Hslot).
  assert (loading g = false) as Hl.
  { destruct (loading g) eqn:Hl; [|reflexivity].
    pose proof (loading_counts _ _ _ Hi Hl). lia. }
  unfold Set_steps, Get_steps. rewrite run_schedule_app.
  cbn [run_schedule step app]. rewrite Hpc, Hpend, Hwr, Hzero.
  cbn [negb Nat.eqb andb]. rewrite run_schedule_app.
  rewrite (run_stores s fields) by reflexivity.
  cbn [run_schedule step poller_at mu slot pending handlers published
       readers writer].
  rewrite finish_copy_all. rewrite Hi.
  assert (forall X Y : option system,
            (match g with
             | GetIdle => X
             | GetLoading _ _ => Y
             | GetReturned _ => X
             end) = X) as Hg'.
  { intros X Y. destruct g; try reflexivity; discriminate. }
  rewrite Hg'. cbn [negb]. rewrite run_schedule_app.
  rewrite (run_loads i fields _ State_zero)
    by (cbn [handlers]; eapply nth_error_set_nth; exact Hi).
  cbn [run_schedule step poller_at mu slot pending handlers published
       readers writer].
  rewrite set_nth_twice.
  erewrite nth_error_set_nth by exact Hi.
  rewrite finish_copy_all.
  eexists. split; [reflexivity|].
  cbn [handlers slot published mu pending hd Nat.pred readers writer].
  rewrite set_nth_twice. erewrite nth_error_set_nth by exact Hi.
  repeat split.
Qed.

(** X9 at the start, with two readings to come and two handlers. *)
Lemma get_after_set_witness :
  exists c',
    run_schedule (Set_steps ++ Get_steps 1)
      (start (reading 1 "first") [reading 2 "second"; reading 3 "third"] 2)
    = Some c'
    /\ nth_error (handlers c') 1 = Some (GetReturned (reading 2 "second"))
    /\ slot c' = reading 2 "second"
    /\ hd (reading 1 "first") (published c') = reading 2 "second"
    /\ mu c' = {| writer := false; readers := 0 |}
    /\ pending c' = [reading 3 "third"].
Proof.
  exact (get_after_set (reading 1 "first")
           [reading 2 "second"; reading 3 "third"] 2 [] _
           (reading 2 "second") [reading 3 "third"] 1 GetIdle
           eq_refl eq_refl eq_refl eq_refl eq_refl).
Defined.

(** * The consumers *)

Lemma subMono_ltb (t u b : Z) :
  minDuration < b <= maxDuration ->
  (subMono t u <? b) = (t - u <? b).
Proof.
  unfold subMono, maxDuration, minDuration.
  change (2 ^ 63 - 1) with 9223372036854775807.
  change (- 2 ^ 63) with (-9223372036854775808). intros Hb.
  destruct (Z.ltb_spec 9223372036854775807 (t - u));
    [|destruct (Z.ltb_spec (t - u) (-9223372036854775808))];
    destruct (Z.ltb_spec (t - u) b); try lia;
    try (apply Z.ltb_lt; lia); try (apply Z.ltb_ge; lia).
Qed.

Lemma ttl_in_range : minDuration < FuncPower.ttl <= maxDuration.
Proof. split; reflexivity || discriminate. Qed.

(** ** Package function: getPower *)

(** What a call of [getPower] does when it does not serve the cache and has
    a URL: one GET, and the outcome stored with the time. *)
Lemma FuncPower_get (E : Net.Env FuncPower.Power) (url : string)
    (v : FuncPower.Vars) :
  (Net.Sub (Net.now_at E (FuncPower.clock_reads v)) (FuncPower.cacheAt v)
   <? FuncPower.ttl)
  && negb (Net.Unix (FuncPower.Timestamp (FuncPower.cache v)) =? 0) = false ->
  String.eqb url "" = false ->
  let p :=
    match Net.get E (FuncPower.gets v) url with
    | Net.DoFailed err => FuncPower.Power_error err
    | Net.DecodeFailed err => FuncPower.Power_error err
    | Net.Decoded p => p
    end in
  FuncPower.getPower E url v
  = (p, None,
     {| FuncPower.cache := p;
        FuncPower.cacheAt := Net.now_at E (S (FuncPower.clock_reads v));
        FuncPower.clock_reads := S (S (FuncPower.clock_reads v));
        FuncPower.gets := S (FuncPower.gets v) |}).
Proof.
  intros Hstale Hurl p. unfold FuncPower.getPower. cbv zeta.
  cbn [FuncPower.cache FuncPower.cacheAt FuncPower.clock_reads
       FuncPower.gets].
  rewrite Hstale, Hurl. subst p.
  destruct (Net.get E (FuncPower.gets v) url); reflexivity.
Qed.

Lemma FuncPower_made_get (E : Net.Env FuncPower.Power) (url : string)
    (v : FuncPower.Vars) :
  FuncPower.gets (snd (FuncPower.getPower E url v)) = S (FuncPower.gets v) ->
  (Net.Sub (Net.now_at E (FuncPower.clock_reads v)) (FuncPower.cacheAt v)
   <? FuncPower.ttl)
  && negb (Net.Unix (FuncPower.Timestamp (FuncPower.cache v)) =? 0) = false
  /\ String.eqb url "" = false.
Proof.
  unfold FuncPower.getPower. cbv zeta.
  cbn [FuncPower.cache FuncPower.cacheAt FuncPower.clock_reads
       FuncPower.gets].
  destruct (_ && _); [cbn; lia|].
  destruct (String.eqb url ""); [cbn; lia|]. auto.
Qed.

(** X10: the cache of [getPower] lasts five seconds.  After a call that
    made a GET and returned a reading [p], the next call returns [p] again
    without a GET when less than [ttl] has passed on the monotonic clock
    and the Unix seconds of [p.Timestamp] are not 0; it makes a new GET
    when [ttl] or more has passed, and also whenever the Unix seconds of
    [p.Timestamp] are 0, however little time has passed. *)
Theorem getPower_ttl (E : Net.Env FuncPower.Power) (url : string)
    (v : FuncPower.Vars) :
  let r1 := FuncPower.getPower E url v in
  let p := fst (fst r1) in
  let v1 := snd r1 in
  let r2 := FuncPower.getPower E url v1 in
  let elapsed :=
    Net.mono_at E (S (S (FuncPower.clock_reads v)))
    - Net.mono_at E (S (FuncPower.clock_reads v)) in
  FuncPower.gets v1 = S (FuncPower.gets v) ->
  (elapsed < FuncPower.ttl ->
   Net.Unix (FuncPower.Timestamp p) <> 0 ->
   fst (fst r2) = p /\ FuncPower.gets (snd r2) = FuncPower.gets v1)
  /\ (FuncPower.ttl <= elapsed ->
      FuncPower.gets (snd r2) = S (FuncPower.gets v1))
  /\ (Net.Unix (FuncPower.Timestamp p) = 0 ->
      FuncPower.gets (snd r2) = S (FuncPower.gets v1)).
Proof.
  intros r1 p v1 r2 elapsed Hget.
  destruct (FuncPower_made_get E url v Hget) as [Hstale Hurl].
  pose proof (FuncPower_get E url v Hstale Hurl) as Hr1. cbv zeta in Hr1.
  subst r2 p v1 r1. rewrite Hr1 in *. cbn [fst snd] in *.
  set (p := match Net.get E (FuncPower.gets v) url with
            | Net.DoFailed err => FuncPower.Power_error err
            | Net.DecodeFailed err => FuncPower.Power_error err
            | Net.Decoded p => p
            end) in *.
  assert (forall b : bool,
            ((elapsed <? FuncPower.ttl)
             && negb (Net.Unix (FuncPower.Timestamp p) =? 0)) = b ->
            FuncPower.getPower E url
              {| FuncPower.cache := p;
                 FuncPower.cacheAt :=
                   Net.now_at E (S (FuncPower.clock_reads v));
                 FuncPower.clock_reads := S (S (FuncPower.clock_reads v));
                 FuncPower.gets := S (FuncPower.gets v) |}
            = if b
              then (p, None,
                    {| FuncPower.cache := p;
                       FuncPower.cacheAt :=
                         Net.now_at E (S (FuncPower.clock_reads v));
                       FuncPower.clock_reads :=
                         S (S (S (FuncPower.clock_reads v)));
                       FuncPower.gets := S (FuncPower.gets v) |})
              else FuncPower.getPower E url
                     {| FuncPower.cache := p;
                        FuncPower.cacheAt :=
                          Net.now_at E (S (FuncPower.clock_reads v));
                        FuncPower.clock_reads :=
                          S (S (FuncPower.clock_reads v));
                        FuncPower.gets := S (FuncPower.gets v) |}) as Hsecond.
  { intros b Hb. destruct b; [|reflexivity].
    unfold FuncPower.getPower at 1. cbv zeta.
    cbn [FuncPower.cache FuncPower.cacheAt FuncPower.clock_reads
         FuncPower.gets Net.Sub Net.now_at Net.mono].
    rewrite (subMono_ltb _ _ _ ttl_in_range). fold elapsed.
    now rewrite Hb. }
  assert (forall (Hb : ((elapsed <? FuncPower.ttl)
                        && negb (Net.Unix (FuncPower.Timestamp p) =? 0))
                       = false),
            FuncPower.gets
              (snd (FuncPower.getPower E url
                      {| FuncPower.cache := p;
                         FuncPower.cacheAt :=
                           Net.now_at E (S (FuncPower.clock_reads v));
                         FuncPower.clock_reads :=
                           S (S (FuncPower.clock_reads v));
                         FuncPower.gets := S (FuncPower.gets v) |}))
            = S (S (FuncPower.gets v))) as Hagain.
  { intros Hb. rewrite FuncPower_get; [reflexivity| |exact Hurl].
    cbn [FuncPower.cache FuncPower.cacheAt FuncPower.clock_reads
         FuncPower.gets Net.Sub Net.now_at Net.mono].
    rewrite (subMono_ltb _ _ _ ttl_in_range). exact Hb. }
  split; [|split].
  - intros Hlt Hunix. rewrite (Hsecond true); [auto|].
    apply andb_true_intro. split; [apply Z.ltb_lt; exact Hlt|].
    apply negb_true_iff, Z.eqb_neq. exact Hunix.
  - intros Hge. apply Hagain.
    assert ((elapsed <? FuncPower.ttl) = false) as ->
      by (apply Z.ltb_ge; exact Hge).
    reflexivity.
  - intros Hunix. apply Hagain. rewrite Hunix. cbn. apply andb_false_r.
Qed.

(** X10 with the backend up: the second request, one second after the
    first, is served from the cache. *)
Lemma getPower_ttl_witness :
  let v1 := snd (FuncPower.getPower up_backend "http://10.0.0.7:8085/power"
                   FuncPower.Vars_zero) in
  let r2 := FuncPower.getPower up_backend "http://10.0.0.7:8085/power" v1 in
  fst (fst r2) = warm_reading /\ FuncPower.gets (snd r2) = 1%nat.
Proof.
  cbv zeta.
  refine (proj1 (getPower_ttl up_backend "http://10.0.0.7:8085/power"
                   FuncPower.Vars_zero _) _ _).
  - vm_compute. reflexivity.
  - vm_compute. reflexivity.
  - vm_compute. discriminate.
Defined.

(** X11: a failure is cached like a reading.  After a call whose GET
    failed, or whose body did not decode, the next call made less than
    [ttl] later returns the same error reading and makes no GET: the zero
    timestamp of an error reading passes the test [Unix() != 0], its Unix
    seconds being -62135596800. *)
Theorem getPower_serves_cached_error (E : Net.Env FuncPower.Power)
    (url : string) (v : FuncPower.Vars) (err : error) :
  let r1 := FuncPower.getPower E url v in
  let v1 := snd r1 in
  let r2 := FuncPower.getPower E url v1 in
  FuncPower.gets v1 = S (FuncPower.gets v) ->
  Net.get E (FuncPower.gets v) url = Net.DoFailed err
  \/ Net.get E (FuncPower.gets v) url = Net.DecodeFailed err ->
  Net.mono_at E (S (S (FuncPower.clock_reads v)))
  - Net.mono_at E (S (FuncPower.clock_reads v)) < FuncPower.ttl ->
  fst (fst r1) = FuncPower.Power_error err
  /\ fst (fst r2) = FuncPower.Power_error err
  /\ FuncPower.gets (snd r2) = FuncPower.gets v1.
Proof.
  intros r1 v1 r2 Hget Hfail Hsoon.
  destruct (FuncPower_made_get E url v Hget) as [Hstale Hurl].
  pose proof (FuncPower_get E url v Hstale Hurl) as Hr1. cbv zeta in Hr1.
  assert (match Net.get E (FuncPower.gets v) url with
          | Net.DoFailed e => FuncPower.Power_error e
          | Net.DecodeFailed e => FuncPower.Power_error e
          | Net.Decoded p => p
          end = FuncPower.Power_error err) as Hp.
  { destruct Hfail as [-> | ->]; reflexivity. }
  rewrite Hp in Hr1. subst r2 v1 r1. rewrite Hr1. cbn [fst snd].
  split; [reflexivity|].
  unfold FuncPower.getPower. cbv zeta.
  cbn [FuncPower.cache FuncPower.cacheAt FuncPower.clock_reads
       FuncPower.gets Net.Sub Net.now_at Net.mono].
  rewrite (subMono_ltb _ _ _ ttl_in_range).
  assert ((Net.mono_at E (S (S (FuncPower.clock_reads v)))
           - Net.mono_at E (S (FuncPower.clock_reads v)) <? FuncPower.ttl)
          = true) as -> by (apply Z.ltb_lt; exact Hsoon).
  cbn. auto.
Qed.

(** X11 with the backend down: the second request, one second after the
    first, gets the cached error and does not try again. *)
Lemma getPower_serves_cached_error_witness :
  let v1 := snd (FuncPower.getPower down_backend "http://10.0.0.7:8085/power"
                   FuncPower.Vars_zero) in
  let r2 := FuncPower.getPower down_backend "http://10.0.0.7:8085/power" v1 in
  fst (fst r2) = FuncPower.Power_error "connection refused"
  /\ FuncPower.gets (snd r2) = 1%nat.
Proof.
  cbv zeta.
  refine (proj2 (getPower_serves_cached_error down_backend
                   "http://10.0.0.7:8085/power" FuncPower.Vars_zero
                   "connection refused" _ _ _)).
  - vm_compute. reflexivity.
  - left. reflexivity.
  - vm_compute. reflexivity.
Defined.

Lemma since_zero_is_long (E : Net.Env FuncPower.Power) (k : nat) :
  0 <= Net.wall_at E k ->
  (Net.Sub (Net.now_at E k) Net.WTime_zero <? FuncPower.ttl) = false.
Proof.
  intros Hwall. unfold Net.Sub, Net.now_at, Net.WTime_zero.
  cbn [Net.mono Net.wall]. rewrite (subMono_ltb _ _ _ ttl_in_range).
  apply Z.ltb_ge. unfold Net.zero_wall, FuncPower.ttl. lia.
Qed.

(** X12: without a URL nothing is ever fetched.  From the start of the
    program, with [powerURL] empty and a clock that reads a time after
    1 January 1970, every one of [n] calls of [getPower] in a row returns
    the reading that says so, none makes a GET, and the cache stays as it
    was. *)
Theorem getPower_without_url (E : Net.Env FuncPower.Power) (n : nat) :
  (forall k, 0 <= Net.wall_at E k) ->
  let '(ps, v) := getPower_calls E "" n FuncPower.Vars_zero in
  ps = repeat (FuncPower.Power_error "POWER_API_URL/HOST_IP not set") n
  /\ FuncPower.gets v = 0%nat
  /\ FuncPower.cache v = FuncPower.Power_error ""
  /\ FuncPower.cacheAt v = Net.WTime_zero.
Proof.
  intros Hwall.
  assert (forall n k,
            getPower_calls E "" n
              {| FuncPower.cache := FuncPower.Power_error "";
                 FuncPower.cacheAt := Net.WTime_zero;
                 FuncPower.clock_reads := k; FuncPower.gets := 0 |}
            = (repeat (FuncPower.Power_error "POWER_API_URL/HOST_IP not set")
                 n,
               {| FuncPower.cache := FuncPower.Power_error "";
                  FuncPower.cacheAt := Net.WTime_zero;
                  FuncPower.clock_reads := (n + k)%nat;
                  FuncPower.gets := 0 |})) as Hcalls.
  { clear n. induction n as [|n IH]; intros k; [reflexivity|].
    cbn [getPower_calls]. unfold FuncPower.getPower. cbv zeta.
    cbn [FuncPower.cache FuncPower.cacheAt FuncPower.clock_reads
         FuncPower.gets].
    rewrite (since_zero_is_long E k (Hwall k)). cbn [andb String.eqb].
    rewrite IH. f_equal.
    - change (repeat ?x (S n)) with (x :: repeat x n).
      now rewrite <- repeat_cons.
    - f_equal. lia. }
  unfold FuncPower.Vars_zero. rewrite Hcalls. auto.
Qed.

(** X12 with three requests. *)
Lemma getPower_without_url_witness :
  fst (getPower_calls down_backend "" 3 FuncPower.Vars_zero)
  = repeat (FuncPower.Power_error "POWER_API_URL/HOST_IP not set") 3
  /\ FuncPower.gets (snd (getPower_calls down_backend "" 3
                            FuncPower.Vars_zero)) = 0%nat.
Proof.
  pose proof (getPower_without_url down_backend 3) as Hc.
  destruct (getPower_calls down_backend "" 3 FuncPower.Vars_zero) as [ps v].
  destruct Hc as (Hps & Hg & _).
  - intros k. unfold down_backend. cbn [Net.wall_at]. lia.
  - cbn [fst snd]. split; assumption.
Defined.

(** ** Package function: Handle *)

(** X13: [Handle] calls [getPower] before anything else, so the variables
    after it are those after [getPower] even when it answers 500; and when
    the GET of that call failed and the request could be dumped, the
    document says [degraded = false] with the error reading: a backend that
    is down reads as not degraded. *)
Theorem Handle_on_failure (E : Net.Env FuncPower.Power) (url : string)
    (dump : string * option error) (v : FuncPower.Vars) :
  snd (FuncPower.Handle E url dump v) = snd (FuncPower.getPower E url v)
  /\ (forall e, snd dump = Some e ->
        fst (FuncPower.Handle E url dump v) = FuncPower.InternalServerError e)
  /\ (forall err,
        FuncPower.gets (snd (FuncPower.getPower E url v))
        = S (FuncPower.gets v) ->
        Net.get E (FuncPower.gets v) url = Net.DoFailed err
        \/ Net.get E (FuncPower.gets v) url = Net.DecodeFailed err ->
        snd dump = None ->
        fst (FuncPower.Handle E url dump v)
        = FuncPower.Json false (FuncPower.Power_error err) (fst dump)).
Proof.
  split; [|split].
  - unfold FuncPower.Handle.
    destruct (FuncPower.getPower E url v) as [[p e] v1].
    now destruct (snd dump).
  - intros e He. unfold FuncPower.Handle.
    destruct (FuncPower.getPower E url v) as [[p e'] v1]. now rewrite He.
  - intros err Hget Hfail Hdump.
    destruct (FuncPower_made_get E url v Hget) as [Hstale Hurl].
    pose proof (FuncPower_get E url v Hstale Hurl) as Hr1. cbv zeta in Hr1.
    unfold FuncPower.Handle. rewrite Hr1, Hdump.
    destruct Hfail as [-> | ->]; reflexivity.
Qed.

(** X13 with the backend down. *)
Lemma Handle_on_failure_witness :
  fst (FuncPower.Handle down_backend "http://10.0.0.7:8085/power"
         ("GET / HTTP/1.1", None) FuncPower.Vars_zero)
  = FuncPower.Json false (FuncPower.Power_error "connection refused")
      "GET / HTTP/1.1".
Proof.
  refine (proj2 (proj2 (Handle_on_failure down_backend
                          "http://10.0.0.7:8085/power"
                          ("GET / HTTP/1.1", None) FuncPower.Vars_zero))
            "connection refused" _ _ _).
  - vm_compute. reflexivity.
  - left. reflexivity.
  - reflexivity.
Defined.

(** ** ko-function: getPower *)

Lemma KoPower_get (E : Net.Env FuncPower.Power) (url : string)
    (v : FuncPower.Vars) :
  (Net.Sub (Net.now_at E (FuncPower.clock_reads v)) (FuncPower.cacheAt v)
   <? FuncPower.ttl)
  && negb (Net.IsZero (FuncPower.Timestamp (FuncPower.cache v))) = false ->
  String.eqb url "" = false ->
  let p :=
    match Net.get E (FuncPower.gets v) url with
    | Net.DoFailed err => FuncPower.Power_error err
    | Net.DecodeFailed err => FuncPower.Power_error err
    | Net.Decoded p => p
    end in
  KoPower.getPower E url v
  = (p, None,
     {| FuncPower.cache := p;
        FuncPower.cacheAt := Net.now_at E (S (FuncPower.clock_reads v));
        FuncPower.clock_reads := S (S (FuncPower.clock_reads v));
        FuncPower.gets := S (FuncPower.gets v) |}).
Proof.
  intros Hstale Hurl p. unfold KoPower.getPower. cbv zeta.
  cbn [FuncPower.cache FuncPower.cacheAt FuncPower.clock_reads
       FuncPower.gets].
  rewrite Hstale, Hurl. subst p.
  destruct (Net.get E (FuncPower.gets v) url); reflexivity.
Qed.

Lemma KoPower_made_get (E : Net.Env FuncPower.Power) (url : string)
    (v : FuncPower.Vars) :
  FuncPower.gets (snd (KoPower.getPower E url v)) = S (FuncPower.gets v) ->
  (Net.Sub (Net.now_at E (FuncPower.clock_reads v)) (FuncPower.cacheAt v)
   <? FuncPower.ttl)
  && negb (Net.IsZero (FuncPower.Timestamp (FuncPower.cache v))) = false
  /\ String.eqb url "" = false.
Proof.
  unfold KoPower.getPower. cbv zeta.
  cbn [FuncPower.cache FuncPower.cacheAt FuncPower.clock_reads
       FuncPower.gets].
  destruct (_ && _); [cbn; lia|].
  destruct (String.eqb url ""); [cbn; lia|]. auto.
Qed.

(** X14: this [getPower] does not serve a failure from its cache.  After a
    call whose GET failed or whose body did not decode, and equally after
    one that decoded a reading with the zero timestamp, the next call makes
    a new GET however little time has passed; a reading with another
    timestamp is served again, without a GET, for less than [ttl]. *)
Theorem KoPower_retries_after_failure (E : Net.Env FuncPower.Power)
    (url : string) (v : FuncPower.Vars) :
  let r1 := KoPower.getPower E url v in
  let p := fst (fst r1) in
  let v1 := snd r1 in
  let r2 := KoPower.getPower E url v1 in
  FuncPower.gets v1 = S (FuncPower.gets v) ->
  (forall err,
     Net.get E (FuncPower.gets v) url = Net.DoFailed err
     \/ Net.get E (FuncPower.gets v) url = Net.DecodeFailed err ->
     p = FuncPower.Power_error err
     /\ FuncPower.gets (snd r2) = S (FuncPower.gets v1))
  /\ (Net.IsZero (FuncPower.Timestamp p) = true ->
      FuncPower.gets (snd r2) = S (FuncPower.gets v1))
  /\ (Net.IsZero (FuncPower.Timestamp p) = false ->
      Net.mono_at E (S (S (FuncPower.clock_reads v)))
      - Net.mono_at E (S (FuncPower.clock_reads v)) < FuncPower.ttl ->
      fst (fst r2) = p /\ FuncPower.gets (snd r2) = FuncPower.gets v1).
Proof.
  intros r1 p v1 r2 Hget.
  destruct (KoPower_made_get E url v Hget) as [Hstale Hurl].
  pose proof (KoPower_get E url v Hstale Hurl) as Hr1. cbv zeta in Hr1.
  subst r2 p v1 r1. rewrite Hr1. cbn [fst snd].
  set (p := match Net.get E (FuncPower.gets v) url with
            | Net.DoFailed err => FuncPower.Power_error err
            | Net.DecodeFailed err => FuncPower.Power_error err
            | Net.Decoded p => p
            end) in *.
  assert (Net.IsZero (FuncPower.Timestamp p) = true ->
          FuncPower.gets
            (snd (KoPower.getPower E url
                    {| FuncPower.cache := p;
                       FuncPower.cacheAt :=
                         Net.now_at E (S (FuncPower.clock_reads v));
                       FuncPower.clock_reads :=
                         S (S (FuncPower.clock_reads v));
                       FuncPower.gets := S (FuncPower.gets v) |}))
          = S (S (FuncPower.gets v))) as Hzero.
  { intros Hz. rewrite KoPower_get; [reflexivity| |exact Hurl].
    cbn [FuncPower.cache FuncPower.cacheAt FuncPower.clock_reads
         FuncPower.gets].
    rewrite Hz. apply andb_false_r. }
  split; [|split].
  - intros err Hfail.
    assert (p = FuncPower.Power_error err) as Hp.
    { subst p. destruct Hfail as [-> | ->]; reflexivity. }
    split; [exact Hp|]. apply Hzero. rewrite Hp. reflexivity.
  - exact Hzero.
  - intros Hnz Hsoon. unfold KoPower.getPower. cbv zeta.
    cbn [FuncPower.cache FuncPower.cacheAt FuncPower.clock_reads
         FuncPower.gets Net.Sub Net.now_at Net.mono].
    rewrite (subMono_ltb _ _ _ ttl_in_range), Hnz.
    assert ((Net.mono_at E (S (S (FuncPower.clock_reads v)))
             - Net.mono_at E (S (FuncPower.clock_reads v)) <? FuncPower.ttl)
            = true) as -> by (apply Z.ltb_lt; exact Hsoon).
    cbn. auto.
Qed.

(** X14 with the backend down: the second request tries again. *)
Lemma KoPower_retries_after_failure_witness :
  let v1 := snd (KoPower.getPower down_backend "http://10.0.0.7:8085/power"
                   FuncPower.Vars_zero) in
  let r2 := KoPower.getPower down_backend "http://10.0.0.7:8085/power" v1 in
  FuncPower.gets (snd r2) = 2%nat.
Proof.
  cbv zeta.
  refine (proj2 (proj1 (KoPower_retries_after_failure down_backend
                          "http://10.0.0.7:8085/power" FuncPower.Vars_zero _)
                   "connection refused" _)).
  - vm_compute. reflexivity.
  - left. reflexivity.
Defined.

(** ** The status function *)

Lemma getStatus_get (E : Net.Env StatusProxy.PowerStatus) (url : string)
    (v : StatusProxy.Vars) :
  (Net.Sub (Net.now_at E (StatusProxy.clock_reads v)) (StatusProxy.cacheAt v)
   <? StatusProxy.ttl)
  && negb (String.eqb (StatusProxy.LastUpdated (StatusProxy.cache v)) "")
  = false ->
  let p :=
    match Net.get E (StatusProxy.gets v) url with
    | Net.DoFailed err => StatusProxy.PowerStatus_error err
    | Net.DecodeFailed err => StatusProxy.PowerStatus_error err
    | Net.Decoded p => p
    end in
  StatusProxy.getStatus E url v
  = (p, None,
     {| StatusProxy.cache := p;
        StatusProxy.cacheAt := Net.now_at E (S (StatusProxy.clock_reads v));
        StatusProxy.clock_reads := S (S (StatusProxy.clock_reads v));
        StatusProxy.gets := S (StatusProxy.gets v) |}).
Proof.
  intros Hstale p. unfold StatusProxy.getStatus. cbv zeta.
  cbn [StatusProxy.cache StatusProxy.cacheAt StatusProxy.clock_reads
       StatusProxy.gets].
  rewrite Hstale. subst p.
  destruct (Net.get E (StatusProxy.gets v) url); reflexivity.
Qed.

Lemma getStatus_made_get (E : Net.Env StatusProxy.PowerStatus) (url : string)
    (v : StatusProxy.Vars) :
  StatusProxy.gets (snd (StatusProxy.getStatus E url v))
  = S (StatusProxy.gets v) ->
  (Net.Sub (Net.now_at E (StatusProxy.clock_reads v)) (StatusProxy.cacheAt v)
   <? StatusProxy.ttl)
  && negb (String.eqb (StatusProxy.LastUpdated (StatusProxy.cache v)) "")
  = false.
Proof.
  unfold StatusProxy.getStatus. cbv zeta.
  cbn [StatusProxy.cache StatusProxy.cacheAt StatusProxy.clock_reads
       StatusProxy.gets].
  destruct (_ && _); [cbn; lia | reflexivity].
Qed.

(** X15: what [handle] answers.  Its document has the status [getStatus]
    returns; [should_run] is true exactly when the battery is at 30 or
    more, or charging, or solar power is available, and [power_state] is
    [ok] then and [low] otherwise.  When the GET of that call failed, the
    status is the error status, the answer is [low] and [should_run =
    false], and the next call of [getStatus] makes a new GET however little
    time has passed: an error status has no [LastUpdated] and is never
    served from the cache. *)
Theorem status_handle_answers (E : Net.Env StatusProxy.PowerStatus)
    (url : string) (v : StatusProxy.Vars) :
  let out := fst (StatusProxy.handle E url v) in
  let v1 := snd (StatusProxy.handle E url v) in
  StatusProxy.power out = fst (fst (StatusProxy.getStatus E url v))
  /\ v1 = snd (StatusProxy.getStatus E url v)
  /\ (StatusProxy.should_run out = true
      <-> 30 <= StatusProxy.BatteryPercent (StatusProxy.power out)
          \/ StatusProxy.IsCharging (StatusProxy.power out) = true
          \/ StatusProxy.SolarAvailable (StatusProxy.power out) = true)
  /\ StatusProxy.power_state out
     = (if StatusProxy.should_run out then "ok" else "low")
  /\ (forall err,
        StatusProxy.gets v1 = S (StatusProxy.gets v) ->
        Net.get E (StatusProxy.gets v) url = Net.DoFailed err
        \/ Net.get E (StatusProxy.gets v) url = Net.DecodeFailed err ->
        StatusProxy.power out = StatusProxy.PowerStatus_error err
        /\ StatusProxy.power_state out = "low"
        /\ StatusProxy.should_run out = false
        /\ StatusProxy.gets (snd (StatusProxy.getStatus E url v1))
           = S (StatusProxy.gets v1)).
Proof.
  intros out v1. subst out v1. unfold StatusProxy.handle.
  destruct (StatusProxy.getStatus E url v) as [[ps e] v1] eqn:Hg.
  cbn [fst snd StatusProxy.power StatusProxy.should_run
       StatusProxy.power_state].
  split; [reflexivity|]. split; [reflexivity|]. split; [|split].
  - destruct (Z.leb_spec 30 (StatusProxy.BatteryPercent ps));
      destruct (StatusProxy.IsCharging ps);
      destruct (StatusProxy.SolarAvailable ps); cbn;
      split; intros; auto; try discriminate;
      repeat match goal with
             | H : _ \/ _ |- _ => destruct H
             end; try discriminate; lia.
  - destruct ((30 <=? StatusProxy.BatteryPercent ps)
              || StatusProxy.IsCharging ps || StatusProxy.SolarAvailable ps);
      reflexivity.
  - intros err Hget Hfail.
    assert (StatusProxy.gets (snd (StatusProxy.getStatus E url v))
            = S (StatusProxy.gets v)) as Hget' by (now rewrite Hg).
    pose proof (getStatus_get E url v (getStatus_made_get E url v Hget'))
      as Hr1.
    cbv zeta in Hr1. rewrite Hg in Hr1. injection Hr1 as -> _ ->.
    assert (match Net.get E (StatusProxy.gets v) url with
            | Net.DoFailed e0 => StatusProxy.PowerStatus_error e0
            | Net.DecodeFailed e0 => StatusProxy.PowerStatus_error e0
            | Net.Decoded p => p
            end = StatusProxy.PowerStatus_error err) as ->.
    { destruct Hfail as [-> | ->]; reflexivity. }
    repeat split.
    rewrite getStatus_get; [reflexivity|].
    cbn [StatusProxy.cache StatusProxy.LastUpdated
         StatusProxy.PowerStatus_error String.eqb negb].
    apply andb_false_r.
Qed.

(** X15 with the simulator down. *)
Lemma status_handle_answers_witness :
  let out := fst (StatusProxy.handle down_status_backend
                    "http://localhost:8080/status" StatusProxy.Vars_zero) in
  StatusProxy.power out = StatusProxy.PowerStatus_error "connection refused"
  /\ StatusProxy.power_state out = "low"
  /\ StatusProxy.should_run out = false.
Proof.
  cbv zeta.
  destruct (proj2 (proj2 (proj2 (proj2
              (status_handle_answers down_status_backend
                 "http://localhost:8080/status" StatusProxy.Vars_zero))))
              "connection refused") as (Hp & Hs & Hr & _).
  - vm_compute. reflexivity.
  - left. reflexivity.
  - auto.
Defined.

(** ** The simulator and the poller *)

Lemma generated_battery (E : Simulator.Env) (draws : nat) :
  (forall k n, 0 < n -> 0 <= Simulator.intn E k n < n) ->
  40 <= Simulator.BatteryPercent (fst (Simulator.generatePowerStatus E draws))
     <= 99.
Proof.
  intros Hintn. cbn [Simulator.generatePowerStatus fst
                     Simulator.BatteryPercent].
  pose proof (Hintn draws 60 ltac:(lia)). lia.
Qed.

(** X16: what the simulator generates.  With [rand.Intn(n)] in [0, n), the
    battery is between 40 and 99 (never 100), the time of day is [night]
    from 18 hours to before 6 and [day] otherwise, solar power is available
    exactly by day when not charging, the node name is never empty, and two
    random numbers are drawn. *)
Theorem generatePowerStatus_ranges (E : Simulator.Env) (draws : nat) :
  (forall k n, 0 < n -> 0 <= Simulator.intn E k n < n) ->
  let ps := fst (Simulator.generatePowerStatus E draws) in
  40 <= Simulator.BatteryPercent ps <= 99
  /\ (Simulator.TimeOfDay ps = "night"
      <-> 18 <= Simulator.hour E \/ Simulator.hour E < 6)
  /\ (Simulator.TimeOfDay ps = "day"
      <-> 6 <= Simulator.hour E < 18)
  /\ (Simulator.SolarAvailable ps = true
      <-> Simulator.TimeOfDay ps = "day" /\ Simulator.IsCharging ps = false)
  /\ Simulator.NodeName ps <> ""
  /\ snd (Simulator.generatePowerStatus E draws) = S (S draws).
Proof.
  intros Hintn ps. split; [apply generated_battery, Hintn|]. subst ps.
  cbn [Simulator.generatePowerStatus fst snd Simulator.TimeOfDay
       Simulator.SolarAvailable Simulator.IsCharging Simulator.NodeName].
  assert ((18 <=? Simulator.hour E) || (Simulator.hour E <? 6) = true
          <-> 18 <= Simulator.hour E \/ Simulator.hour E < 6) as Hnight.
  { rewrite orb_true_iff, Z.leb_le, Z.ltb_lt. reflexivity. }
  destruct ((18 <=? Simulator.hour E) || (Simulator.hour E <? 6)) eqn:Hn.
  - assert (18 <= Simulator.hour E \/ Simulator.hour E < 6) as Hh
      by (now apply Hnight).
    split; [tauto|]. split; [split; [discriminate | lia]|].
    split; [cbn; split; [discriminate | intros [? _]; discriminate]|].
    split; [|reflexivity].
    unfold Simulator.getNodeName.
    destruct (String.eqb_spec (Simulator.getenv E "NODE_NAME") "");
      cbn; [discriminate | assumption].
  - assert (~ (18 <= Simulator.hour E \/ Simulator.hour E < 6)) as Hh.
    { intros Hc. apply Hnight in Hc. discriminate. }
    split; [split; [discriminate | tauto]|].
    split; [split; [lia | reflexivity]|].
    split.
    + cbn [String.eqb Ascii.eqb Bool.eqb andb].
      destruct (Simulator.intn E (S draws) 2 =? 0); cbn;
        split; try discriminate; auto. intros [_ ?]; discriminate.
    + split; [|reflexivity].
      unfold Simulator.getNodeName.
      destruct (String.eqb_spec (Simulator.getenv E "NODE_NAME") "");
        cbn; [discriminate | assumption].
Qed.

(** X16 on the example simulator: battery 77, not charging, at night. *)
Lemma generatePowerStatus_ranges_witness :
  let ps := fst (Simulator.generatePowerStatus Simulator.example_env 0) in
  40 <= Simulator.BatteryPercent ps <= 99
  /\ (Simulator.TimeOfDay ps = "night"
      <-> 18 <= Simulator.hour Simulator.example_env
          \/ Simulator.hour Simulator.example_env < 6)
  /\ (Simulator.TimeOfDay ps = "day"
      <-> 6 <= Simulator.hour Simulator.example_env < 18)
  /\ (Simulator.SolarAvailable ps = true
      <-> Simulator.TimeOfDay ps = "day" /\ Simulator.IsCharging ps = false)
  /\ Simulator.NodeName ps <> ""
  /\ snd (Simulator.generatePowerStatus Simulator.example_env 0) = 2%nat.
Proof.
  apply (generatePowerStatus_ranges Simulator.example_env 0).
  intros k n Hn. cbn [Simulator.intn Simulator.example_env].
  apply Z.mod_pos_bound. exact Hn.
Defined.

(** A name with an underscore is not the name of an extension. *)
Lemma underscore_refused (a b : string) :
  Poller.validateExtensionName (a +++ "_" +++ b) <> None.
Proof.
  unfold Poller.validateExtensionName.
  destruct (String.length (a +++ "_" +++ b) <? 1)%nat; [discriminate|].
  assert (Poller.all_alnum (a +++ "_" +++ b) = false) as ->;
    [|discriminate].
  induction a as [|c a IH]; [reflexivity|].
  cbn [append Poller.all_alnum] in IH |- *. rewrite IH. apply andb_false_r.
Qed.

Lemma SetExtension_refused (e : Poller.Event) (name : string)
    (value : Poller.ExtValue) :
  Poller.validateExtensionName name <> None ->
  Poller.extensions (Poller.SetExtension e name value) = Poller.extensions e
  /\ In ("extension:" +++ name)
       (Poller.field_errors (Poller.SetExtension e name value)).
Proof.
  intros Hbad. unfold Poller.SetExtension. cbv zeta.
  destruct (Poller.validateExtensionName name); [|congruence].
  cbn [Poller.extensions Poller.field_errors]. split; [reflexivity|].
  left. reflexivity.
Qed.

(** X17: the policy of the poller never reaches its events.  The loop
    computes [shouldRun] and [powerState] and sets them as the extensions
    [should_run] and [power_state]; the SDK refuses both names for their
    underscore, so the event of every status carries the extension [node]
    and no other, has the two refusals among its field errors, and has the
    status as its data.  Hence two statuses of the same node give events
    with the same extensions and field errors, whatever their battery, time
    of day and charging state. *)
Theorem poller_event_carries_no_policy (status status' : Poller.PowerStatus) :
  let ev := Poller.event_of status in
  Poller.extensions ev
  = [("node", Poller.ExtString (Simulator.NodeName status))]
  /\ Poller.extension (Poller.extensions ev) "should_run" = None
  /\ Poller.extension (Poller.extensions ev) "power_state" = None
  /\ Poller.extension (Poller.extensions ev) "node"
     = Some (Poller.ExtString (Simulator.NodeName status))
  /\ In "extension:should_run" (Poller.field_errors ev)
  /\ In "extension:power_state" (Poller.field_errors ev)
  /\ Poller.source ev = "power-poller"
  /\ Poller.type_ ev = "dev.juliand.power.status"
  /\ Poller.data ev = Some status
  /\ (Simulator.NodeName status' = Simulator.NodeName status ->
      Poller.extensions (Poller.event_of status') = Poller.extensions ev
      /\ Poller.field_errors (Poller.event_of status')
         = Poller.field_errors ev).
Proof.
  intros ev. subst ev.
  assert (forall st,
            Poller.extensions (Poller.event_of st)
            = [("node", Poller.ExtString (Simulator.NodeName st))]
            /\ Poller.field_errors (Poller.event_of st)
               = ["extension:power_state"; "extension:should_run"]) as Hev.
  { intros st. unfold Poller.event_of. cbv zeta.
    set (shouldRun := (_ && _ && _)%bool).
    set (powerState := if shouldRun then _ else _).
    pose proof (underscore_refused "should" "run") as H1.
    pose proof (underscore_refused "power" "state") as H2.
    cbn [append] in H1, H2.
    unfold Poller.SetExtension at 2 3. cbv zeta.
    destruct (Poller.validateExtensionName "should_run"); [|congruence].
    destruct (Poller.validateExtensionName "power_state"); [|congruence].
    split; reflexivity. }
  destruct (Hev status) as [Hx Hf]. destruct (Hev status') as [Hx' Hf'].
  rewrite Hx, Hf.
  split; [reflexivity|]. split; [reflexivity|]. split; [reflexivity|].
  split; [reflexivity|]. split; [right; left; reflexivity|].
  split; [left; reflexivity|].
  split; [reflexivity|]. split; [reflexivity|]. split; [reflexivity|].
  intros Hnode. rewrite Hx', Hf', Hnode. split; reflexivity.
Qed.

(** X17 on two statuses of one node, of which the policy calls one low and
    the other ok: their events carry the same extensions. *)
Lemma poller_event_carries_no_policy_witness :
  Poller.extensions (Poller.event_of Poller.ok_status)
  = Poller.extensions (Poller.event_of Poller.low_status)
  /\ Poller.extension (Poller.extensions (Poller.event_of Poller.low_status))
       "power_state" = None.
Proof.
  destruct (poller_event_carries_no_policy Poller.low_status Poller.ok_status)
    as (_ & _ & Hstate & _ & _ & _ & _ & _ & _ & Hsame).
  split; [apply Hsame; reflexivity | exact Hstate].
Defined.

(** ** Where the services look for their backend *)

Lemma app_nonempty (a b : string) : a <> "" -> a +++ b <> "".
Proof. destruct a; [congruence | discriminate]. Qed.

(** X18: how the functions find their backend.  The power function takes
    [POWER_API_URL] when it is set, else builds the URL of port 8085 from
    [HOST_IP], and is left with no URL exactly when neither is set.  The
    status function takes [POWER_STATUS_URL] when it is set, else builds the
    URL of port 8080 from [HOST_IP], else falls back on localhost, so that
    its URL is never empty.  The poller's [getenv] gives the value of the
    variable when it is set and the default otherwise. *)
Theorem init_precedence (getenv : string -> string) (k def : string) :
  (getenv "POWER_API_URL" <> ""
   -> FuncPower.init getenv = getenv "POWER_API_URL")
  /\ (getenv "POWER_API_URL" = "" -> getenv "HOST_IP" <> ""
      -> FuncPower.init getenv
         = "http://" +++ getenv "HOST_IP" +++ ":8085/power")
  /\ (FuncPower.init getenv = ""
      <-> getenv "POWER_API_URL" = "" /\ getenv "HOST_IP" = "")
  /\ (getenv "POWER_STATUS_URL" <> ""
      -> StatusProxy.init getenv = getenv "POWER_STATUS_URL")
  /\ (getenv "POWER_STATUS_URL" = "" -> getenv "HOST_IP" <> ""
      -> StatusProxy.init getenv
         = "http://" +++ getenv "HOST_IP" +++ ":8080/status")
  /\ (getenv "POWER_STATUS_URL" = "" -> getenv "HOST_IP" = ""
      -> StatusProxy.init getenv = "http://localhost:8080/status")
  /\ StatusProxy.init getenv <> ""
  /\ (getenv k <> "" -> Poller.getenv getenv k def = getenv k)
  /\ (getenv k = "" -> Poller.getenv getenv k def = def)
  /\ (def <> "" -> Poller.getenv getenv k def <> "").
Proof.
  unfold FuncPower.init, StatusProxy.init, Poller.getenv. cbv zeta.
  destruct (String.eqb_spec (getenv "POWER_API_URL") "") as [Ea|Ea];
    destruct (String.eqb_spec (getenv "POWER_STATUS_URL") "") as [Es|Es];
    destruct (String.eqb_spec (getenv "HOST_IP") "") as [Eh|Eh];
    destruct (String.eqb_spec (getenv k) "") as [Ek|Ek];
    cbn [negb];
    try rewrite Ea; try rewrite Es; try rewrite Eh; try rewrite Ek;
    cbn [String.eqb];
    repeat match goal with
           | |- context [String.eqb ?s ""] =>
               destruct (String.eqb_spec s "")
           end;
    repeat split; intros; try congruence; try discriminate;
    try match goal with H : _ /\ _ |- _ => destruct H; congruence end.
Qed.
